(** * A shallow embedding of the CDN's DNS responder and HTTP cache proxy

    [src/httpserver.py] : [CacheManager] (the popularity loader and the
    recursive size walker) and [CDNHTTPRequestHandler.do_GET].
    [src/dnsserver.py]  : [DNSServer.parse_dig_query] and [DNSServer.run].

    Python objects live in a store indexed by their identity ([id(obj)]);
    library calls the program relies on ([sys.getsizeof], [zlib],
    [requests.get], [dnslib]'s wire codec) are parameters of the sections
    below, with the laws the proofs need stated where they are used. *)

From Stdlib Require Import ZArith Lia List String Ascii.
From Stdlib.Strings Require Import Byte.
From stdpp Require Import base option list gmap sets strings pretty.

Local Open Scope Z_scope.

(** ** Python objects and the size walker *)

Module Py.

(** [id(obj)]. *)
Abbreviation addr := positive.

(** The shapes of object [get_cache_size] tells apart. *)
Inductive pyobj :=
| PStr (s : string)                       (* str: has __iter__, excluded by the isinstance test *)
| PBytes (b : list byte)                  (* bytes, bytearray: likewise *)
| PDict (items : list (addr * addr))      (* dict: (key, value) in insertion order *)
| PIter (elems : list addr) (dict_values : option addr)
    (* any other iterable; [dict_values] is the identity of
       [obj.__dict__.values()] when the object has a __dict__ *)
| PInst (dict : addr)                     (* not iterable, has a __dict__ *)
| PAtom.                                  (* neither: int, float, None, ... *)

Abbreviation heap := (gmap addr pyobj).

(** The identities an object refers to, in the order the walker follows them. *)
Definition refs (o : pyobj) : list addr :=
  match o with
  | PDict items => items.*2 ++ items.*1
  | PIter elems dv => elems ++ match dv with Some v => [v] | None => [] end
  | PInst d => [d]
  | PStr _ | PBytes _ | PAtom => []
  end.

(** Every reference held by a live object points to a live object. *)
Definition closed (h : heap) : Prop :=
  map_Forall (λ _ o, Forall (λ b, is_Some (h !! b)) (refs o)) h.

#[global] Instance closed_dec (h : heap) : Decision (closed h).
Proof. unfold closed. apply _. Defined.

(** [reach h a c]: [c] is [a] or is found from [a] by following
    references. *)
Inductive reach (h : heap) : addr → addr → Prop :=
| reach_here a : reach h a a
| reach_step a o b c :
    h !! a = Some o → b ∈ refs o → reach h b c → reach h a c.

(** What a walk from [roots] leaves in [seen]: it only adds; the roots are
    in; and every identity it added is reached from a root and has all its
    references in. *)
Definition explored (h : heap) (seen seen' : gset addr) (roots : list addr)
    : Prop :=
  seen ⊆ seen' ∧ (∀ x, x ∈ roots → x ∈ seen') ∧
  ∀ a, a ∈ seen' → a ∉ seen →
    (∃ x, x ∈ roots ∧ reach h x a) ∧
    ∀ o b, h !! a = Some o → b ∈ refs o → b ∈ seen'.

(** A store without views: no object of it is an iterable that also has a
    __dict__, the one case in which the walker is handed a temporary
    ([obj.__dict__.values()]) instead of an object the store holds. *)
Definition no_views (h : heap) : Prop :=
  map_Forall (λ _ o, match o with
                     | PIter _ (Some _) => False
                     | _ => True
                     end) h.

#[global] Instance no_views_dec (h : heap) : Decision (no_views h).
Proof.
  unfold no_views. apply map_Forall_dec. intros _ o.
  destruct o as [| | |elems [v|]| |]; apply _.
Defined.

(** Objects the walker does not enter. *)
Definition leaf (o : pyobj) : Prop :=
  match o with
  | PStr _ | PBytes _ | PAtom => True
  | _ => False
  end.

(** The exceptions the two servers can meet. *)
Inductive exn :=
| RequestException     (* requests.get could not reach the origin *)
| IndexError           (* line_item[0] on an empty row *)
| ZlibError            (* zlib.decompress on bytes that are no zlib stream *)
| RecursionError       (* the size walker ran out of depth *)
| TypeError            (* socket.sendto given None *)
| DNSError.            (* dnslib could not parse the datagram *)

Inductive result (A : Type) :=
| Ok (a : A)
| Raise (e : exn).
Arguments Ok {A} a.
Arguments Raise {A} e.

Definition bytes := list byte.

(** [len(x)]. *)
Definition len {A} (xs : list A) : Z := Z.of_nat (length xs).

(** [s.encode()] for text in the ASCII range. *)
Definition encode (s : string) : bytes :=
  map byte_of_ascii (list_ascii_of_string s).

Definition walk := option (Z * gset addr).

(** [sum([self.get_cache_size(x, seen) for x in xs])]: the calls run left to
    right and share the one mutable [seen] set. *)
Fixpoint sum_sizes (rec : addr → gset addr → walk) (xs : list addr)
    (seen : gset addr) : walk :=
  match xs with
  | [] => Some (0, seen)
  | x :: xs' =>
      '(n, seen) ← rec x seen;
      '(m, seen) ← sum_sizes rec xs' seen;
      Some (n + m, seen)
  end.

Section Walker.
(** [sys.getsizeof]. *)
Variable getsizeof : pyobj → Z.

(** [CacheManager.get_cache_size(obj, seen)].  The set [seen] is mutated
    in place by the source, so it is threaded through and returned.  The
    result is [None] when [fuel] runs out or an identity is not live. *)
Fixpoint get_cache_size (fuel : nat) (h : heap) (obj : addr)
    (seen : gset addr) : walk :=
  match fuel with
  | O => None
  | S fuel =>
      o ← h !! obj;
      let size := getsizeof o in
      if decide (obj ∈ seen) then Some (0, seen)
      else
        let seen := {[obj]} ∪ seen in
        match o with
        | PDict items =>
            '(vs, seen) ← sum_sizes (get_cache_size fuel h) (items.*2) seen;
            '(ks, seen) ← sum_sizes (get_cache_size fuel h) (items.*1) seen;
            Some (size + vs + ks, seen)
        | PIter elems dv =>
            '(es, seen) ← sum_sizes (get_cache_size fuel h) elems seen;
            match dv with
            | Some v =>
                '(ds, seen) ← get_cache_size fuel h v seen;
                Some (size + es + ds, seen)
            | None => Some (size + es, seen)
            end
        | PInst d =>
            '(ds, seen) ← get_cache_size fuel h d seen;
            Some (size + ds, seen)
        | PStr _ | PBytes _ | PAtom => Some (size, seen)
        end
  end.

(** The size [sys.getsizeof] reports for the object at an identity. *)
Definition sizeof_at (h : heap) (a : addr) : Z :=
  match h !! a with Some o => getsizeof o | None => 0 end.

Definition total (h : heap) (vis : list addr) : Z :=
  foldr (λ a acc, sizeof_at h a + acc) 0 vis.

(** What a finished measurement looks like: the identities in [vis] were
    new, each is counted once, and they are exactly what [seen] gained. *)
Definition counted_once (h : heap) (seen : gset addr) (vis : list addr)
    (r : walk) : Prop :=
  r = Some (total h vis, seen ∪ list_to_set vis) ∧
  NoDup vis ∧ ∀ a, a ∈ vis → (a ∉ seen) ∧ a ∈ dom h.

End Walker.

(** [s.split(sep)] for a one-character separator. *)
Fixpoint split (sep : ascii) (s : string) : list string :=
  match s with
  | EmptyString => [EmptyString]
  | String c s' =>
      if Ascii.eqb c sep then EmptyString :: split sep s'
      else match split sep s' with
           | seg :: segs => String c seg :: segs
           | [] => [String c EmptyString]
           end
  end.

(** [s.count(c)] for a character [c]. *)
Fixpoint count_char (c : ascii) (s : string) : nat :=
  match s with
  | EmptyString => O
  | String c' s' => (if Ascii.eqb c' c then 1 else 0) + count_char c s'
  end.

(** [get_cache_size(obj)] as the program calls it: [seen] starts empty.  One
    unit of fuel per live object, and one more, is always enough. *)
Definition measure (getsizeof : pyobj → Z) (h : heap) (obj : addr) : option Z :=
  fst <$> get_cache_size getsizeof (S (size h)) h obj ∅.

End Py.

(** ** The cache manager and the request handler ([src/httpserver.py]) *)

Module Http.
Import Py.

Definition CACHE_LIMIT : Z := 20000000.
Definition ORIGIN_PORT : Z := 8080.
Definition CONTENT_TYPE_HEADER : string := "Content-type".
Definition CONTENT_TYPE : string := "text/html".

(** What [requests.get(url)] comes back with. *)
Inductive reply :=
| Response (status_code : Z) (content : bytes)
| Unreachable.                 (* raises requests.exceptions.RequestException *)

(** [self.CACHE]: a dict from str to bytes, in insertion order. *)
Definition cache := list (string * bytes).

(** [key in CACHE.keys()] and [CACHE.get(key)]. *)
Fixpoint dict_get (key : string) (d : cache) : option bytes :=
  match d with
  | [] => None
  | (k, v) :: d' => if decide (k = key) then Some v else dict_get key d'
  end.

(** [CACHE[key] = value]: a key already present keeps its place (and its key
    object) and takes the new value; a new key goes to the end. *)
Fixpoint dict_set (key : string) (value : bytes) (d : cache) : cache :=
  match d with
  | [] => [(key, value)]
  | (k, v) :: d' =>
      if decide (k = key) then (k, value) :: d'
      else (k, v) :: dict_set key value d'
  end.

(** The object graph of the cache: the dict at identity 1, and for its
    [p]-th entry the key at [p~0] and the payload at [p~1]; every key and
    every payload is an object of its own. *)
Definition cache_addr : addr := 1%positive.

Fixpoint entry_ids (p : positive) (d : cache) : list (addr * addr) :=
  match d with
  | [] => []
  | _ :: d' => (p~0, p~1)%positive :: entry_ids (Pos.succ p) d'
  end.

Fixpoint store_entries (p : positive) (d : cache) (h : heap) : heap :=
  match d with
  | [] => h
  | (k, v) :: d' =>
      <[(p~0)%positive := PStr k]>
        (<[(p~1)%positive := PBytes v]> (store_entries (Pos.succ p) d' h))
  end.

Definition cache_heap (d : cache) : heap :=
  store_entries 1 d {[cache_addr := PDict (entry_ids 1 d)]}.

(** Events a request handler or the loader leaves behind, in order. *)
Inductive event :=
| SendResponse (code : Z)
| SendHeader (keyword value : string)
| EndHeaders
| WfileWrite (body : bytes)
| SendError (code : Z) (message : string)
| OriginGet (url : string).

(** Code that emits events and either returns or raises. *)
Definition io (A : Type) : Type := list event * result A.

Definition ret {A} (a : A) : io A := ([], Ok a).
Definition raise {A} (e : exn) : io A := ([], Raise e).
Definition emit (ev : event) : io unit := ([ev], Ok tt).
Definition bind {A B} (m : io A) (k : A → io B) : io B :=
  match m with
  | (t, Ok a) => let '(t', r) := k a in (t ++ t', r)
  | (t, Raise e) => (t, Raise e)
  end.

#[global] Instance io_ret : MRet io := @ret.
#[global] Instance io_bind : MBind io := λ A B k m, bind m k.

(** The payload bytes a cache holds: the sum of [len(value)]. *)
Definition payload_bytes (d : cache) : Z :=
  foldr (λ kv acc, len kv.2 + acc) 0 d.

(** How many requests to the origin a trace holds. *)
Definition is_origin_get (ev : event) : bool :=
  match ev with
  | OriginGet _ => true
  | _ => false
  end.

Definition origin_requests (t : list event) : nat :=
  length (List.filter is_origin_get t).

(** The 400 a path with a nested part draws, if it draws one. *)
Definition bad_request (path : string) : list event :=
  if len (split "/" path) >? 2 then [SendError 400 "Bad request"] else [].

(** A 200 with its header and body. *)
Definition ok_response (body : bytes) : list event :=
  [SendResponse 200; SendHeader CONTENT_TYPE_HEADER CONTENT_TYPE; EndHeaders;
   WfileWrite body].

Section Server.
(** [sys.getsizeof], [zlib.compress], [zlib.decompress]. *)
Variable getsizeof : pyobj → Z.
Variable compress : bytes → bytes.
Variable decompress : bytes → option bytes.
(** [utils.build_request_URL(host, port, query)]; the module [utils] is not
    among the sources. *)
Variable build_request_URL : string → Z → string → string.
(** The origin, as [requests.get] sees it. *)
Variable origin : string → reply.
(** The module global [origin_hostname]. *)
Variable origin_hostname : string.

(** [self.get_cache_size(self.CACHE)]. *)
Definition cache_size (d : cache) : option Z :=
  measure getsizeof (cache_heap d) cache_addr.

Definition payload_sizes (d : cache) : Z :=
  foldr (λ kv acc, getsizeof (PBytes kv.2) + acc) 0 d.

Definition key_sizes (d : cache) : Z :=
  foldr (λ kv acc, getsizeof (PStr kv.1) + acc) 0 d.

(** What [get_cache_size(self.CACHE)] adds up: the dict, every payload,
    every key. *)
Definition csize (d : cache) : Z :=
  getsizeof (PDict (entry_ids 1 d)) + payload_sizes d + key_sizes d.

(** [requests.get(url)]. *)
Definition requests_get (url : string) : io (Z * bytes) :=
  emit (OriginGet url) ;;
  match origin url with
  | Response status_code content => ret (status_code, content)
  | Unreachable => raise RequestException
  end.

Definition measured (d : cache) : io Z :=
  match cache_size d with
  | Some n => ret n
  | None => raise RecursionError
  end.

(** How one turn of the [for] loop ends. *)
Inductive flow :=
| Continue (d : cache)
| Break (d : cache).

(** The body of the loop of [load_popularity_data], for one row of the CSV
    file and the cache so far. *)
Definition load_row (line_item : list string) (CACHE : cache) : io flow :=
  size ← measured CACHE;
  if size <? CACHE_LIMIT then
    match line_item with
    | [] => raise IndexError
    | query :: _ =>
        let origin_request_url :=
          build_request_URL origin_hostname ORIGIN_PORT query in
        response ← requests_get origin_request_url;
        let '(status_code, content) := response in
        if status_code =? 200 then
          let compressed_response := compress content in
          size ← measured CACHE;
          if size + len compressed_response >? CACHE_LIMIT then
            ret (Break CACHE)
          else
            ret (Continue (dict_set query compressed_response CACHE))
        else ret (Continue CACHE)
    end
  else ret (Continue CACHE).

Definition cache_of (f : flow) : cache :=
  match f with
  | Continue d | Break d => d
  end.

(** The [for] loop over the rows [csv.reader] yields: it ends [Continue]
    when the rows are used up and [Break] when a turn broke out of it. *)
Fixpoint load_rows (rows : list (list string)) (CACHE : cache) : io flow :=
  match rows with
  | [] => ret (Continue CACHE)
  | line_item :: rows' =>
      f ← load_row line_item CACHE;
      match f with
      | Continue CACHE' => load_rows rows' CACHE'
      | Break CACHE' => ret (Break CACHE')
      end
  end.

(** [CacheManager.load_popularity_data], started by [__init__] on the empty
    dict; what it leaves in [self.CACHE]. *)
Definition load_popularity_data (rows : list (list string)) : io cache :=
  f ← load_rows rows [];
  ret (cache_of f).

(** Where an entry of the cache comes from: it was there before the loop
    started, or some row named its key, the origin was asked for that key
    during the loop and answered 200, and the entry is the compressed body
    of that answer. *)
Definition fetched (rows : list (list string)) (t : list event)
    (k : string) (v : bytes) : Prop :=
  OriginGet (build_request_URL origin_hostname ORIGIN_PORT k) ∈ t ∧ (∃ cols, (k :: cols) ∈ rows) ∧
  ∃ content, origin (build_request_URL origin_hostname ORIGIN_PORT k)
             = Response 200 content ∧ v = compress content.

(** The origin request each row stands for, in the order of the rows; a row
    without columns stands for none. *)
Definition row_requests (rows : list (list string)) : list event :=
  flat_map (λ line_item,
              match line_item with
              | query :: _ =>
                  [OriginGet (build_request_URL origin_hostname ORIGIN_PORT query)]
              | [] => []
              end) rows.

(** [CDNHTTPRequestHandler.do_GET], for the cache [cm.CACHE] and the request
    path [self.path]. *)
Definition do_GET (CACHE : cache) (path : string) : io unit :=
  if decide (path = "/grading/beacon") then
    emit (SendResponse 204) ;;
    emit (SendHeader CONTENT_TYPE_HEADER CONTENT_TYPE) ;;
    emit EndHeaders ;;
    emit (WfileWrite (encode "Response code: NO CONTENT(204)"))
  else
    (if len (split "/" path) >? 2 then emit (SendError 400 "Bad request")
     else ret tt) ;;
    let query := List.last (split "/" path) EmptyString in
    match dict_get query CACHE with
    | Some cached_response =>
        match decompress cached_response with
        | Some response =>
            emit (SendResponse 200) ;;
            emit (SendHeader CONTENT_TYPE_HEADER CONTENT_TYPE) ;;
            emit EndHeaders ;;
            emit (WfileWrite response)
        | None => raise ZlibError
        end
    | None =>
        let origin_request_url :=
          build_request_URL origin_hostname 8080 query in
        response ← requests_get origin_request_url;
        let '(status_code, content) := response in
        if negb (status_code =? 200) then
          emit (SendError 404 "Not Found")
        else
          emit (SendResponse 200) ;;
          emit (SendHeader CONTENT_TYPE_HEADER CONTENT_TYPE) ;;
          emit EndHeaders ;;
          emit (WfileWrite content)
    end.

(** What the handler does for a content key: a hit is decompressed and
    served; a miss goes to the origin, whose 200 is relayed as it is and
    whose other answers become a 404. *)
Definition served (d : cache) (query : string) (t : list event)
    (r : result unit) : Prop :=
  match dict_get query d with
  | Some cached_response =>
      match decompress cached_response with
      | Some response => t = ok_response response ∧ r = Ok tt
      | None => t = [] ∧ r = Raise ZlibError
      end
  | None =>
      let url := build_request_URL origin_hostname 8080 query in
      match origin url with
      | Response status_code content =>
          if status_code =? 200
          then t = OriginGet url :: ok_response content ∧ r = Ok tt
          else t = [OriginGet url; SendError 404 "Not Found"] ∧ r = Ok tt
      | Unreachable => t = [OriginGet url] ∧ r = Raise RequestException
      end
  end.

End Server.

End Http.

(** ** The DNS responder ([src/dnsserver.py]) *)

Module Dns.
Import Py.

(** A domain name as dnslib's [DNSLabel] holds it: its labels, the root
    last and left out. *)
Definition DNSLabel := list string.

Record DNSHeader := {
  id : Z;
  qr : Z;
  aa : Z;
  ra : Z }.

Record DNSQuestion := {
  qname : DNSLabel;
  qtype : Z;
  qclass : Z }.

(** Record data: [A(ip)] is all the responder builds. *)
Inductive RD :=
| A (ip : string).

Record RR := {
  rname : DNSLabel;
  rtype : Z;
  rclass : Z;
  ttl : Z;
  rdata : RD }.

Record DNSRecord := {
  header : DNSHeader;
  questions : list DNSQuestion;
  rr : list RR }.

(** [DNSQuestion()], with dnslib's defaults. *)
Definition default_question : DNSQuestion :=
  {| qname := []; qtype := 1; qclass := 1 |}.

(** [record.q]: the first question, or a default one when there is none. *)
Definition get_q (r : DNSRecord) : DNSQuestion :=
  match questions r with
  | q :: _ => q
  | [] => default_question
  end.

(** [RR(rname, rdata=rd)], with dnslib's defaults for type, class and ttl. *)
Definition mkRR (name : DNSLabel) (rd : RD) : RR :=
  {| rname := name; rtype := 1; rclass := 1; ttl := 0; rdata := rd |}.

(** [str(label)]: the labels joined by dots, with the closing dot. *)
Definition label_str (l : DNSLabel) : string :=
  String.concat "." l ++ ".".

(** [s[:-1]]. *)
Fixpoint drop_last (s : string) : string :=
  match s with
  | EmptyString => EmptyString
  | String c EmptyString => EmptyString
  | String c s' => String c (drop_last s')
  end.

(** Where a datagram came from: [(host, port)]. *)
Definition address : Type := string * Z.

Section Responder.
(** [DNSRecord.parse] ([None]: it raises) and [DNSRecord.pack]. *)
Variable parse : bytes → option DNSRecord.
Variable pack : DNSRecord → bytes.
(** [self.NAME]. *)
Variable NAME : string.

(** The record [parse_dig_query] builds before it looks at the question. *)
Definition response_for (dig_query : DNSRecord) (addr : address) : DNSRecord :=
  let q := get_q dig_query in
  {| header := {| id := id (header dig_query); qr := 1; aa := 1; ra := 1 |};
     questions := [ {| qname := qname q; qtype := qtype q; qclass := qclass q |} ];
     rr := [ mkRR (qname q) (A (fst addr)) ] |}.

(** [DNSServer.parse_dig_query(data, addr)]; [Ok None] is Python's [None],
    returned when the function falls off its end. *)
Definition parse_dig_query (data : bytes) (addr : address)
    : result (option bytes) :=
  match parse data with
  | None => Raise DNSError
  | Some dig_query =>
      let question_name := qname (get_q dig_query) in
      let question_type := qtype (get_q dig_query) in
      let response := response_for dig_query addr in
      if (question_type =? 1)
         && bool_decide (drop_last (label_str question_name) = NAME)
      then Ok (Some (pack response))
      else Ok None
  end.

(** [socket.sendto(data, addr)]: only bytes can be sent. *)
Definition sendto (data : option bytes) (addr : address)
    : result (bytes * address) :=
  match data with
  | Some b => Ok (b, addr)
  | None => Raise TypeError
  end.

(** How the serving loop stands once the datagrams that arrived are used up:
    blocked in [recvfrom], or ended by an exception nothing catches. *)
Inductive status :=
| Waiting
| Crashed (e : exn).

(** The [while True] loop of [DNSServer.run] over the datagrams that arrive,
    in order: what was sent, and how the loop stands. *)
Fixpoint serve (inbox : list (bytes * address))
    : list (bytes * address) * status :=
  match inbox with
  | [] => ([], Waiting)
  | (data, addr) :: inbox' =>
      match parse_dig_query data addr with
      | Raise e => ([], Crashed e)
      | Ok dig_response =>
          match sendto dig_response addr with
          | Raise e => ([], Crashed e)
          | Ok datagram =>
              let '(sent, st) := serve inbox' in (datagram :: sent, st)
          end
      end
  end.

End Responder.

End Dns.

(** ** Concrete stand-ins for the libraries

    The sections above take the library calls as parameters.  To run the
    model on inputs, they are instantiated here: object sizes with the
    figures of 64-bit CPython 3.8, zlib with a codec that only frames the
    payload, dnslib with the DNS wire format without name compression. *)

Module Concrete.
Import Py Http Dns.

(** The table size of a dict that only ever grew to [n] entries: it starts
    at 8 slots and doubles when two thirds are used. *)
Fixpoint dict_table (fuel : nat) (t n : Z) : Z :=
  match fuel with
  | O => t
  | S fuel' => if n <=? 2 * t / 3 then t else dict_table fuel' (2 * t) n
  end.

Definition dict_sizeof (n : Z) : Z :=
  if n =? 0 then 64
  else
    let t := dict_table 60 8 n in
    let ix := if t <=? 255 then 1 else if t <=? 65535 then 2
              else if t <=? 4294967295 then 4 else 8 in
    64 + 40 + t * ix + 24 * (2 * t / 3).

Definition cpython_getsizeof (o : pyobj) : Z :=
  match o with
  | PStr s => 49 + Z.of_nat (String.length s)
  | PBytes b => 33 + len b
  | PDict items => dict_sizeof (len items)
  | PIter elems _ => 56 + 8 * len elems
  | PInst _ => 48
  | PAtom => 28
  end.

(** A codec in place of zlib: the payload behind the two bytes that open a
    zlib stream. *)
Definition framed_compress (b : bytes) : bytes := x78 :: x9c :: b.

Definition framed_decompress (c : bytes) : option bytes :=
  match c with
  | x78 :: x9c :: b => Some b
  | _ => None
  end.

(** Modelled from the spec: [utils.build_request_URL] is not among the
    sources; an origin request is an HTTP GET to
    [http://<origin-host>:<origin-port>/<content-key>]. *)
Definition build_request_URL (host : string) (port : Z) (query : string)
    : string :=
  "http://" ++ host ++ ":" ++ pretty port ++ "/" ++ query.

(** A payload of [n] zero bytes. *)
Definition blob (n : N) : bytes := repeat x00 (N.to_nat n).

(** A small origin: it has [Dog], answers 404 for [Cat], serves an index
    for the empty key, and cannot be reached for anything else. *)
Definition pets (url : string) : reply :=
  if decide (url = "http://origin:8080/Dog") then
    Response 200 (encode "woof woof")
  else if decide (url = "http://origin:8080/Cat") then Response 404 []
  else if decide (url = "http://origin:8080/") then
    Response 200 (encode "index")
  else Unreachable.

(** The cache the loader builds from that origin for the rows [Dog], [Cat]. *)
Definition pets_cache : cache :=
  [("Dog", framed_compress (encode "woof woof"))].

(** An origin whose [Dog] page is [page]; every other page is short. *)
Definition big_dog (page : bytes) (url : string) : reply :=
  if decide (url = "http://origin:8080/Dog") then Response 200 page
  else Response 200 (encode "meow").

(** *** DNS messages on the wire *)

Definition byte_of_Z (z : Z) : byte :=
  default x00 (Byte.of_N (Z.to_N (z mod 256))).

Definition Z_of_byte (b : byte) : Z := Z.of_N (Byte.to_N b).

Definition u16 (n : Z) : bytes := [byte_of_Z (n / 256); byte_of_Z n].

Definition decimal (s : string) : Z :=
  fold_left (λ acc c, 10 * acc + (Z.of_nat (nat_of_ascii c) - 48))
    (list_ascii_of_string s) 0.

Definition ip_bytes (ip : string) : bytes :=
  map (λ seg, byte_of_Z (decimal seg)) (split "." ip).

Definition pack_name (l : DNSLabel) : bytes :=
  flat_map (λ s, byte_of_Z (Z.of_nat (String.length s)) :: encode s) l ++ [x00].

Definition pack_question (q : DNSQuestion) : bytes :=
  pack_name (qname q) ++ u16 (qtype q) ++ u16 (qclass q).

Definition pack_rr (r : RR) : bytes :=
  pack_name (rname r) ++ u16 (rtype r) ++ u16 (rclass r)
    ++ u16 (ttl r / 65536) ++ u16 (ttl r)
    ++ match rdata r with A ip => u16 4 ++ ip_bytes ip end.

Definition pack_flags (h : DNSHeader) : Z :=
  32768 * qr h + 1024 * aa h + 128 * ra h.

Definition wire_pack (r : DNSRecord) : bytes :=
  u16 (id (header r)) ++ u16 (pack_flags (header r))
    ++ u16 (len (questions r)) ++ u16 (len (rr r)) ++ u16 0 ++ u16 0
    ++ flat_map pack_question (questions r) ++ flat_map pack_rr (rr r).

Definition rd16 (b : bytes) : option (Z * bytes) :=
  match b with
  | hi :: lo :: rest => Some (256 * Z_of_byte hi + Z_of_byte lo, rest)
  | _ => None
  end.

Definition decode (b : bytes) : string :=
  string_of_list_ascii (map ascii_of_byte b).

Fixpoint parse_name (fuel : nat) (b : bytes) : option (DNSLabel * bytes) :=
  match fuel, b with
  | S fuel', n :: rest =>
      let k := N.to_nat (Byte.to_N n) in
      if decide (k = O) then Some ([], rest)
      else if decide (k ≤ length rest)%nat then
        '(labels, rest') ← parse_name fuel' (drop k rest);
        Some (decode (take k rest) :: labels, rest')
      else None
  | _, _ => None
  end.

Fixpoint parse_questions (n : nat) (b : bytes)
    : option (list DNSQuestion * bytes) :=
  match n with
  | O => Some ([], b)
  | S n' =>
      '(name, b) ← parse_name (length b) b;
      '(qt, b) ← rd16 b;
      '(qc, b) ← rd16 b;
      '(qs, b) ← parse_questions n' b;
      Some ({| qname := name; qtype := qt; qclass := qc |} :: qs, b)
  end.

(** Header and question section; what follows them in a query (dig adds an
    OPT record) is not looked at. *)
Definition wire_parse (data : bytes) : option DNSRecord :=
  '(ident, b) ← rd16 data;
  '(flags, b) ← rd16 b;
  '(qdcount, b) ← rd16 b;
  '(_, b) ← rd16 b;
  '(_, b) ← rd16 b;
  '(_, b) ← rd16 b;
  '(qs, _) ← parse_questions (Z.to_nat qdcount) b;
  Some {| header := {| id := ident;
                       qr := flags / 32768 mod 2;
                       aa := flags / 1024 mod 2;
                       ra := flags / 128 mod 2 |};
          questions := qs;
          rr := [] |}.

(** A store with a cycle and with sharing: a dict whose two keys are bound
    to one list, and that list holds itself and the dict. *)
Definition knot : heap :=
  {[ 1%positive := PDict [(2, 3); (4, 3)]%positive;
     2%positive := PStr "a";
     3%positive := PIter [3; 1]%positive None;
     4%positive := PStr "b" ]}.

(** The query [dig] sends for a name and a record type, with message id
    [0x1234]. *)
Definition query_for (name : DNSLabel) (qt : Z) : DNSRecord :=
  {| header := {| id := 4660; qr := 0; aa := 0; ra := 0 |};
     questions := [ {| qname := name; qtype := qt; qclass := 1 |} ];
     rr := [] |}.

Definition client : address := ("10.0.0.7", 53124).

End Concrete.

(** * Properties of the size walker *)

Section WalkerFacts.
Import Py.
Variable getsizeof : pyobj → Z.

#[local] Abbreviation total := (Py.total getsizeof).
#[local] Abbreviation counted_once := (Py.counted_once getsizeof).
#[local] Abbreviation get_cache_size := (Py.get_cache_size getsizeof).
#[local] Abbreviation sizeof_at := (Py.sizeof_at getsizeof).

Lemma closed_refs (h : heap) a o b :
  closed h → h !! a = Some o → b ∈ refs o → b ∈ dom h.
Proof.
  intros Hcl Ho Hb. specialize (Hcl a o Ho). simpl in Hcl.
  rewrite Forall_forall in Hcl. apply elem_of_dom. by apply Hcl.
Qed.

Lemma total_app h v1 v2 : total h (v1 ++ v2) = total h v1 + total h v2.
Proof. induction v1 as [|a v1 IH]; simpl; [done | rewrite IH; lia]. Qed.

Lemma counted_once_seq h seen v1 v2 r :
  NoDup v1 → (∀ a, a ∈ v1 → (a ∉ seen) ∧ a ∈ dom h) →
  counted_once h (seen ∪ list_to_set v1) v2 r →
  ∃ n s, r = Some (n, s) ∧ n = total h v2 ∧
         s = seen ∪ list_to_set (v1 ++ v2) ∧
         NoDup (v1 ++ v2) ∧ ∀ a, a ∈ v1 ++ v2 → (a ∉ seen) ∧ a ∈ dom h.
Proof.
  intros Hnd1 Hv1 (-> & Hnd2 & Hv2).
  eexists _, _. split; [reflexivity|]. split; [done|].
  split; [rewrite list_to_set_app_L; set_solver|].
  split.
  - apply NoDup_app. split; [done|]. split; [|done].
    intros a Ha1 Ha2. destruct (Hv2 a Ha2) as [Hn _]. set_solver.
  - intros a [Ha|Ha]%elem_of_app; [by apply Hv1|].
    destruct (Hv2 a Ha) as [Hn Hd]. split; [set_solver|done].
Qed.

Lemma sum_sizes_counted h rec xs : ∀ seen,
  (∀ x s, x ∈ xs → seen ⊆ s → ∃ vis, counted_once h s vis (rec x s)) →
  ∃ vis, counted_once h seen vis (sum_sizes rec xs seen).
Proof.
  induction xs as [|x xs IH]; intros seen Hrec.
  - exists []. split; [simpl; f_equal; f_equal; set_solver|].
    split; [constructor|]. intros a Ha. by apply elem_of_nil in Ha.
  - destruct (Hrec x seen) as (v1 & Hr1 & Hnd1 & Hv1); [left | done |].
    simpl. rewrite Hr1. simpl.
    destruct (IH (seen ∪ list_to_set v1)) as (v2 & Hc2).
    { intros y s Hy Hs. apply Hrec; [by right | set_solver]. }
    destruct (counted_once_seq h seen v1 v2 _ Hnd1 Hv1 Hc2)
      as (n & s & Hr2 & -> & -> & Hnd & Hv).
    rewrite Hr2. simpl. exists (v1 ++ v2).
    split; [by rewrite total_app|done].
Qed.

Lemma live_lookup (h : heap) a : a ∈ dom h → ∃ o, h !! a = Some o.
Proof. intros Ha. apply elem_of_dom in Ha. by destruct Ha as [o Ho]; exists o. Qed.

Lemma unseen_shrinks (h : heap) a (seen s : gset addr) :
  a ∈ dom h → a ∉ seen → {[a]} ∪ seen ⊆ s →
  (size (dom h ∖ s) < size (dom h ∖ seen))%nat.
Proof. intros Ha Hn Hs. apply subset_size. set_solver. Qed.

Lemma counted_once_root h a o seen vis :
  h !! a = Some o → a ∉ seen →
  NoDup vis → (∀ b, b ∈ vis → (b ∉ {[a]} ∪ seen) ∧ b ∈ dom h) →
  counted_once h seen (a :: vis)
    (Some (getsizeof o + total h vis, {[a]} ∪ seen ∪ list_to_set vis)).
Proof.
  intros Ho Hn Hnd Hv. split; [|split].
  - simpl. unfold sizeof_at at 1. rewrite Ho. f_equal. f_equal. set_solver.
  - constructor; [|done]. intros Ha. destruct (Hv a Ha). set_solver.
  - intros b [->|Hb]%elem_of_cons.
    + split; [done|]. apply elem_of_dom. by exists o.
    + destruct (Hv b Hb). split; [set_solver|done].
Qed.

Lemma counted_once_leaf h a o seen :
  h !! a = Some o → a ∉ seen →
  counted_once h seen [a] (Some (getsizeof o, {[a]} ∪ seen)).
Proof.
  intros Ho Hn. split; [|split].
  - simpl. unfold sizeof_at. rewrite Ho. f_equal. f_equal; [lia | set_solver].
  - apply NoDup_singleton.
  - intros b ->%list_elem_of_singleton. split; [done|].
    apply elem_of_dom. by exists o.
Qed.

(** The walker, given one unit of fuel per identity of the store not yet
    seen (and one more), finishes, and counts each identity once. *)
Lemma get_cache_size_counted h : closed h → ∀ fuel obj seen,
  obj ∈ dom h → (size (dom h ∖ seen) < fuel)%nat →
  ∃ vis, counted_once h seen vis (get_cache_size fuel h obj seen) ∧
         (obj ∈ seen ∧ vis = [] ∨ ∃ vis', vis = obj :: vis').
Proof.
  intros Hcl. induction fuel as [|fuel IH]; intros obj seen Hobj Hfuel; [lia|].
  destruct (live_lookup h obj Hobj) as [o Ho].
  simpl. rewrite Ho. simpl. destruct (decide (obj ∈ seen)) as [Hin|Hnin].
  { exists []. split; [|by left].
    split; [simpl; f_equal; f_equal; set_solver|].
    split; [constructor|]. intros a Ha. by apply elem_of_nil in Ha. }
  assert (Hrec : ∀ x s, x ∈ refs o → {[obj]} ∪ seen ⊆ s →
            ∃ vis, counted_once h s vis (get_cache_size fuel h x s)).
  { intros x s Hx Hs. destruct (IH x s) as (vis & Hc & _); [by eapply closed_refs| |by exists vis].
    pose proof (unseen_shrinks h obj seen s Hobj Hnin Hs). lia. }
  assert (Hsum : ∀ xs, (∀ x, x ∈ xs → x ∈ refs o) → ∀ s, {[obj]} ∪ seen ⊆ s →
            ∃ vis, counted_once h s vis
                     (sum_sizes (get_cache_size fuel h) xs s)).
  { intros xs Hxs s Hs. apply sum_sizes_counted.
    intros x s' Hx Hs'. apply Hrec; [by apply Hxs | set_solver]. }
  destruct o as [str|b|items|elems dv|d|].
  - exists [obj]. split; [by apply counted_once_leaf | right; by exists []].
  - exists [obj]. split; [by apply counted_once_leaf | right; by exists []].
  - destruct (Hsum (items.*2)) with (s := {[obj]} ∪ seen)
      as (v1 & Hr1 & Hnd1 & Hv1); [simpl; set_solver | done |].
    rewrite Hr1. simpl.
    destruct (Hsum (items.*1)) with (s := {[obj]} ∪ seen ∪ list_to_set v1)
      as (v2 & Hc2); [simpl; set_solver | set_solver |].
    destruct (counted_once_seq h _ v1 v2 _ Hnd1 Hv1 Hc2)
      as (n & s & Hr2 & -> & -> & Hnd & Hv).
    rewrite Hr2. simpl. exists (obj :: v1 ++ v2). split; [|right; by eexists].
    rewrite <- Z.add_assoc, <- total_app. by apply counted_once_root.
  - destruct (Hsum elems) with (s := {[obj]} ∪ seen)
      as (v1 & Hr1 & Hnd1 & Hv1); [simpl; set_solver | done |].
    rewrite Hr1. simpl. destruct dv as [v|].
    + destruct (Hrec v ({[obj]} ∪ seen ∪ list_to_set v1)) as (v2 & Hc2);
        [simpl; set_solver | set_solver |].
      destruct (counted_once_seq h _ v1 v2 _ Hnd1 Hv1 Hc2)
        as (n & s & Hr2 & -> & -> & Hnd & Hv).
      rewrite Hr2. simpl. exists (obj :: v1 ++ v2). split; [|right; by eexists].
      rewrite <- Z.add_assoc, <- total_app. by apply counted_once_root.
    + exists (obj :: v1). split; [by apply counted_once_root | right; by eexists].
  - destruct (Hrec d ({[obj]} ∪ seen)) as (v1 & Hr1 & Hnd1 & Hv1);
      [simpl; set_solver | done |].
    rewrite Hr1. simpl. exists (obj :: v1). split; [by apply counted_once_root | right; by eexists].
  - exists [obj]. split; [by apply counted_once_leaf | right; by exists []].
Qed.


(** A repeat visit costs nothing and changes nothing. *)
Lemma get_cache_size_seen h fuel obj seen :
  is_Some (h !! obj) → obj ∈ seen →
  get_cache_size (S fuel) h obj seen = Some (0, seen).
Proof.
  intros [o Ho] Hin. simpl. rewrite Ho. simpl.
  by destruct (decide (obj ∈ seen)).
Qed.

Lemma sum_sizes_mono (rec rec' : addr → gset addr → walk) xs : ∀ seen r,
  (∀ x s r, x ∈ xs → rec x s = Some r → rec' x s = Some r) →
  sum_sizes rec xs seen = Some r → sum_sizes rec' xs seen = Some r.
Proof.
  induction xs as [|x xs IH]; intros seen r Hrec Hsum; [done|].
  simpl in *. destruct (rec x seen) as [[n s1]|] eqn:Hx; [|done].
  rewrite (Hrec x seen (n, s1)); [|left|done]. simpl in *.
  destruct (sum_sizes rec xs s1) as [[m s2]|] eqn:Hxs; [|done].
  rewrite (IH s1 (m, s2)); [done| |done].
  intros y s r' Hy. apply Hrec. by right.
Qed.

(** More fuel does not change a result. *)
Lemma get_cache_size_mono h : ∀ fuel fuel' obj seen r,
  (fuel ≤ fuel')%nat →
  get_cache_size fuel h obj seen = Some r →
  get_cache_size fuel' h obj seen = Some r.
Proof.
  induction fuel as [|fuel IH]; intros fuel' obj seen r Hle Hrun; [done|].
  destruct fuel' as [|fuel']; [lia|].
  assert (Hrec : ∀ x s r', get_cache_size fuel h x s = Some r' →
                           get_cache_size fuel' h x s = Some r').
  { intros x s r'. apply IH. lia. }
  assert (Hsum : ∀ xs s r', sum_sizes (get_cache_size fuel h) xs s = Some r' →
                   sum_sizes (get_cache_size fuel' h) xs s = Some r').
  { intros xs s r'. apply sum_sizes_mono. intros x s0 r0 _. apply Hrec. }
  simpl in *. destruct (h !! obj) as [o|]; [|done]. simpl in *.
  destruct (decide (obj ∈ seen)); [done|].
  destruct o as [str|b|items|elems dv|d|]; try done.
  - destruct (sum_sizes (get_cache_size fuel h) items.*2 _)
      as [[vs s1]|] eqn:H1; [|done].
    rewrite (Hsum _ _ _ H1). simpl in *.
    destruct (sum_sizes (get_cache_size fuel h) items.*1 _)
      as [[ks s2]|] eqn:H2; [|done].
    by rewrite (Hsum _ _ _ H2).
  - destruct (sum_sizes (get_cache_size fuel h) elems _)
      as [[es s1]|] eqn:H1; [|done].
    rewrite (Hsum _ _ _ H1). simpl in *. destruct dv as [v|]; [|done].
    destruct (get_cache_size fuel h v s1) as [[ds s2]|] eqn:H2; [|done].
    by rewrite (Hrec _ _ _ H2).
  - destruct (get_cache_size fuel h d _) as [[ds s1]|] eqn:H1; [|done].
    by rewrite (Hrec _ _ _ H1).
Qed.

(** C9. On every store of live objects, cyclic or shared as it may be, the
    size walker returns once it has one unit of fuel per object not yet seen
    and one more, and more fuel changes nothing.  The identities it counted,
    [vis], are pairwise distinct and were not seen before; the size is the
    sum of [sys.getsizeof] over them, each once; [seen] gains exactly them,
    the object asked for included; and an object already seen contributes
    zero. *)
Theorem get_cache_size_total (h : heap) (obj : addr) (seen : gset addr)
    (fuel : nat) :
  closed h → is_Some (h !! obj) → (size (dom h ∖ seen) < fuel)%nat →
  ∃ n seen' vis,
    (∀ fuel', (fuel ≤ fuel')%nat →
       get_cache_size fuel' h obj seen = Some (n, seen')) ∧
    NoDup vis ∧ (∀ a, a ∈ vis → (a ∉ seen) ∧ is_Some (h !! a)) ∧
    n = total h vis ∧ seen' = seen ∪ list_to_set vis ∧
    obj ∈ seen' ∧ (obj ∈ seen → n = 0 ∧ seen' = seen).
Proof.
  intros Hcl Hobj Hfuel. apply elem_of_dom in Hobj.
  destruct (get_cache_size_counted h Hcl fuel obj seen Hobj Hfuel)
    as (vis & (Hr & Hnd & Hv) & Hhead).
  exists (total h vis), (seen ∪ list_to_set vis), vis.
  split; [intros fuel' Hle; by apply (get_cache_size_mono h fuel)|].
  split; [done|]. split.
  { intros a Ha. destruct (Hv a Ha) as [? ?%elem_of_dom]. done. }
  split; [done|]. split; [done|]. split.
  - destruct Hhead as [[Hin _]|[vis' ->]]; set_solver.
  - intros Hin. destruct Hhead as [[_ ->]|[vis' ->]].
    + split; [done|]. set_solver.
    + destruct (Hv obj) as [Hn _]; [left|]. done.
Qed.

(** The call the program makes, [get_cache_size(obj)], always measures. *)
Lemma measure_total (h : heap) (obj : addr) :
  closed h → is_Some (h !! obj) → is_Some (measure getsizeof h obj).
Proof.
  intros Hcl Hobj%elem_of_dom. unfold measure.
  destruct (get_cache_size_counted h Hcl (S (size h)) obj ∅ Hobj)
    as (vis & (-> & _) & _).
  - rewrite difference_empty_L, size_dom. lia.
  - by eexists.
Qed.

End WalkerFacts.

Lemma get_cache_size_total_witness :
  ∃ n seen' vis,
    (∀ fuel', (5 ≤ fuel')%nat →
       Py.get_cache_size Concrete.cpython_getsizeof fuel' Concrete.knot 1%positive ∅
         = Some (n, seen')) ∧
    NoDup vis ∧ (∀ a, a ∈ vis → (a ∉ (∅ : gset Py.addr)) ∧ is_Some (Concrete.knot !! a)) ∧
    n = Py.total Concrete.cpython_getsizeof Concrete.knot vis ∧
    seen' = ∅ ∪ list_to_set vis ∧
    1%positive ∈ seen' ∧ (1%positive ∈ (∅ : gset Py.addr) → n = 0 ∧ seen' = ∅).
Proof.
  apply (get_cache_size_total Concrete.cpython_getsizeof Concrete.knot
           1%positive ∅ 5).
  - apply (bool_decide_unpack _). vm_compute. exact I.
  - apply (bool_decide_unpack _). vm_compute. exact I.
  - vm_compute. lia.
Defined.

(** * The measured size of the cache, in closed form *)

Section CacheSize.
Import Py Http.
Variable getsizeof : pyobj → Z.

#[local] Abbreviation total := (Py.total getsizeof).
#[local] Abbreviation get_cache_size := (Py.get_cache_size getsizeof).
#[local] Abbreviation cache_size := (Http.cache_size getsizeof).
#[local] Abbreviation payload_sizes := (Http.payload_sizes getsizeof).
#[local] Abbreviation key_sizes := (Http.key_sizes getsizeof).
#[local] Abbreviation csize := (Http.csize getsizeof).

Lemma get_cache_size_leaf fuel (h : heap) x o seen :
  h !! x = Some o → leaf o → x ∉ seen →
  get_cache_size (S fuel) h x seen = Some (getsizeof o, {[x]} ∪ seen).
Proof.
  intros Ho Hl Hn. simpl. rewrite Ho. simpl.
  destruct (decide (x ∈ seen)); [done|]. by destruct o.
Qed.

Lemma sum_sizes_cons rec x xs seen :
  sum_sizes rec (x :: xs) seen =
    match rec x seen with
    | Some (n, seen1) =>
        match sum_sizes rec xs seen1 with
        | Some (m, seen2) => Some (n + m, seen2)
        | None => None
        end
    | None => None
    end.
Proof. simpl. destruct (rec x seen) as [[n s1]|]; [|done]. simpl.
  by destruct (sum_sizes rec xs s1) as [[m s2]|]. Qed.

Lemma sum_sizes_leaves fuel (h : heap) xs : ∀ seen,
  NoDup xs → (∀ x, x ∈ xs → x ∉ seen) →
  (∀ x, x ∈ xs → ∃ o, h !! x = Some o ∧ leaf o) →
  sum_sizes (get_cache_size (S fuel) h) xs seen
    = Some (total h xs, list_to_set xs ∪ seen).
Proof.
  induction xs as [|x xs IH]; intros seen Hnd Hseen Hleaf.
  { simpl. f_equal. f_equal. set_solver. }
  apply NoDup_cons in Hnd as [Hx Hnd].
  destruct (Hleaf x) as (o & Ho & Hl); [left|].
  assert (Hnin : x ∉ seen) by (apply Hseen; left).
  rewrite sum_sizes_cons, (get_cache_size_leaf fuel h x o seen Ho Hl Hnin).
  rewrite IH; [|done| |].
  - simpl. unfold Py.sizeof_at at 1. rewrite Ho. f_equal. f_equal. set_solver.
  - intros y Hy. specialize (Hseen y (list_elem_of_further _ _ _ Hy)). set_solver.
  - intros y Hy. apply Hleaf. by right.
Qed.

Lemma entry_keys_form d : ∀ p x,
  x ∈ (entry_ids p d).*1 → ∃ q, x = (q~0)%positive ∧ (p ≤ q)%positive.
Proof.
  induction d as [|kv d IH]; intros p x Hx; simpl in Hx.
  - by apply elem_of_nil in Hx.
  - apply elem_of_cons in Hx as [->|Hx]; [exists p; split; [done|lia]|].
    destruct (IH _ _ Hx) as (q & -> & Hq). exists q. split; [done|lia].
Qed.

Lemma entry_vals_form d : ∀ p x,
  x ∈ (entry_ids p d).*2 → ∃ q, x = (q~1)%positive ∧ (p ≤ q)%positive.
Proof.
  induction d as [|kv d IH]; intros p x Hx; simpl in Hx.
  - by apply elem_of_nil in Hx.
  - apply elem_of_cons in Hx as [->|Hx]; [exists p; split; [done|lia]|].
    destruct (IH _ _ Hx) as (q & -> & Hq). exists q. split; [done|lia].
Qed.

Lemma entry_keys_fresh d p : (p~0)%positive ∉ (entry_ids (Pos.succ p) d).*1.
Proof. intros (q & [= ->] & Hq)%entry_keys_form. lia. Qed.

Lemma entry_vals_fresh d p : (p~1)%positive ∉ (entry_ids (Pos.succ p) d).*2.
Proof. intros (q & [= ->] & Hq)%entry_vals_form. lia. Qed.

Lemma entry_keys_NoDup d : ∀ p, NoDup (entry_ids p d).*1.
Proof.
  induction d as [|kv d IH]; intros p; simpl; constructor;
    [apply entry_keys_fresh | apply IH].
Qed.

Lemma entry_vals_NoDup d : ∀ p, NoDup (entry_ids p d).*2.
Proof.
  induction d as [|kv d IH]; intros p; simpl; constructor;
    [apply entry_vals_fresh | apply IH].
Qed.

Lemma store_lookup_root d : ∀ p (h : heap),
  store_entries p d h !! cache_addr = h !! cache_addr.
Proof.
  induction d as [|[k v] d IH]; intros p h; simpl; [done|].
  rewrite !lookup_insert_ne by done. apply IH.
Qed.

Lemma store_keys_leaf d : ∀ p (h : heap) x,
  x ∈ (entry_ids p d).*1 → ∃ o, store_entries p d h !! x = Some o ∧ leaf o.
Proof.
  induction d as [|[k v] d IH]; intros p h x Hx; simpl in Hx.
  - by apply elem_of_nil in Hx.
  - simpl. apply elem_of_cons in Hx as [->|Hx].
    + exists (PStr k). by rewrite lookup_insert_eq.
    + destruct (entry_keys_form _ _ _ Hx) as (q & -> & Hq).
      rewrite lookup_insert_ne by (intros [= ->]; lia).
      rewrite lookup_insert_ne by done. by apply IH.
Qed.

Lemma store_vals_leaf d : ∀ p (h : heap) x,
  x ∈ (entry_ids p d).*2 → ∃ o, store_entries p d h !! x = Some o ∧ leaf o.
Proof.
  induction d as [|[k v] d IH]; intros p h x Hx; simpl in Hx.
  - by apply elem_of_nil in Hx.
  - simpl. apply elem_of_cons in Hx as [->|Hx].
    + exists (PBytes v). rewrite lookup_insert_ne by done.
      by rewrite lookup_insert_eq.
    + destruct (entry_vals_form _ _ _ Hx) as (q & -> & Hq).
      rewrite lookup_insert_ne by done.
      rewrite lookup_insert_ne by (intros [= ->]; lia). by apply IH.
Qed.

Lemma total_insert_fresh (h : heap) a o xs :
  a ∉ xs → total (<[a:=o]> h) xs = total h xs.
Proof.
  induction xs as [|x xs IH]; intros Ha; simpl; [done|].
  apply not_elem_of_cons in Ha as [Hne Ha].
  rewrite IH by done. unfold Py.sizeof_at.
  by rewrite lookup_insert_ne.
Qed.

Lemma total_store_keys d : ∀ p (h : heap),
  total (store_entries p d h) (entry_ids p d).*1 = key_sizes d.
Proof.
  induction d as [|[k v] d IH]; intros p h; simpl; [done|].
  unfold Py.sizeof_at at 1. rewrite lookup_insert_eq. f_equal.
  rewrite total_insert_fresh by apply entry_keys_fresh.
  rewrite total_insert_fresh; [apply IH|].
  intros (q & [=] & _)%entry_keys_form.
Qed.

Lemma total_store_vals d : ∀ p (h : heap),
  total (store_entries p d h) (entry_ids p d).*2 = payload_sizes d.
Proof.
  induction d as [|[k v] d IH]; intros p h; simpl; [done|].
  unfold Py.sizeof_at at 1. rewrite lookup_insert_ne by done.
  rewrite lookup_insert_eq. f_equal.
  rewrite total_insert_fresh; [|intros (q & [=] & _)%entry_vals_form].
  rewrite total_insert_fresh by apply entry_vals_fresh. apply IH.
Qed.

Lemma get_cache_size_dict fuel (h : heap) obj items seen :
  h !! obj = Some (PDict items) → obj ∉ seen →
  get_cache_size (S fuel) h obj seen =
    '(vs, s) ← sum_sizes (get_cache_size fuel h) (items.*2) ({[obj]} ∪ seen);
    '(ks, s) ← sum_sizes (get_cache_size fuel h) (items.*1) s;
    Some (getsizeof (PDict items) + vs + ks, s).
Proof.
  intros Ho Hn. simpl. rewrite Ho. simpl.
  by destruct (decide (obj ∈ seen)).
Qed.

(** The walker on the cache: the dict, then every payload, then every key. *)
Lemma get_cache_size_cache fuel d :
  get_cache_size (S (S fuel)) (cache_heap d) cache_addr ∅
    = Some (csize d,
            list_to_set (entry_ids 1 d).*1 ∪
              (list_to_set (entry_ids 1 d).*2 ∪ ({[cache_addr]} ∪ ∅))).
Proof.
  assert (Hroot : cache_heap d !! cache_addr = Some (PDict (entry_ids 1 d))).
  { unfold cache_heap. rewrite store_lookup_root. apply lookup_singleton_eq. }
  rewrite (get_cache_size_dict _ _ _ _ _ Hroot) by set_solver.
  rewrite (sum_sizes_leaves fuel (cache_heap d) (entry_ids 1 d).*2).
  - cbn [mbind option_bind].
    rewrite (sum_sizes_leaves fuel (cache_heap d) (entry_ids 1 d).*1).
    + cbn [mbind option_bind]. unfold cache_heap.
      by rewrite total_store_keys, total_store_vals.
    + apply entry_keys_NoDup.
    + intros x (q & -> & _)%entry_keys_form.
      intros [(q' & [=] & _)%elem_of_list_to_set%entry_vals_form|Hx]%elem_of_union.
      set_solver.
    + intros x Hx. by apply store_keys_leaf.
  - apply entry_vals_NoDup.
  - intros x (q & -> & _)%entry_vals_form. set_solver.
  - intros x Hx. by apply store_vals_leaf.
Qed.

(** [get_cache_size(self.CACHE)] always returns, and returns [csize]. *)
Lemma cache_size_closed_form d : cache_size d = Some (csize d).
Proof.
  unfold Http.cache_size, measure.
  destruct (size (cache_heap d)) as [|n] eqn:Hsize.
  - apply map_size_empty_iff in Hsize.
    assert (Hroot : cache_heap d !! cache_addr = Some (PDict (entry_ids 1 d))).
    { unfold cache_heap. rewrite store_lookup_root. apply lookup_singleton_eq. }
    rewrite Hsize in Hroot. by rewrite lookup_empty in Hroot.
  - by rewrite get_cache_size_cache.
Qed.

End CacheSize.

(** * The popularity loader *)

Section LoaderFacts.
Import Py Http.
Variable getsizeof : pyobj → Z.
Variable compress : bytes → bytes.
Variable build_request_URL : string → Z → string → string.
Variable origin : string → reply.
Variable origin_hostname : string.

#[local] Abbreviation cache_size := (Http.cache_size getsizeof).
#[local] Abbreviation csize := (Http.csize getsizeof).
#[local] Abbreviation load_row :=
  (Http.load_row getsizeof compress build_request_URL origin origin_hostname).
#[local] Abbreviation load_rows :=
  (Http.load_rows getsizeof compress build_request_URL origin origin_hostname).
#[local] Abbreviation load_popularity_data :=
  (Http.load_popularity_data getsizeof compress build_request_URL origin
     origin_hostname).
#[local] Abbreviation url_of :=
  (build_request_URL origin_hostname ORIGIN_PORT).
#[local] Abbreviation fetched :=
  (Http.fetched compress build_request_URL origin origin_hostname).

(** One turn of the loop, with the measurement replaced by its closed form. *)
Lemma load_row_spec line_item d :
  load_row line_item d =
    if csize d <? CACHE_LIMIT then
      match line_item with
      | [] => ([], Raise IndexError)
      | query :: _ =>
          match origin (url_of query) with
          | Unreachable => ([OriginGet (url_of query)], Raise RequestException)
          | Response status_code content =>
              if status_code =? 200 then
                if csize d + len (compress content) >? CACHE_LIMIT
                then ([OriginGet (url_of query)], Ok (Break d))
                else ([OriginGet (url_of query)],
                      Ok (Continue (dict_set query (compress content) d)))
              else ([OriginGet (url_of query)], Ok (Continue d))
          end
      end
    else ([], Ok (Continue d)).
Proof.
  unfold Http.load_row, measured. rewrite cache_size_closed_form.
  cbn. destruct (csize d <? CACHE_LIMIT); [|done].
  destruct line_item as [|query cols]; [done|].
  unfold requests_get. destruct (origin (url_of query)) as [st content|]; [|done].
  cbn. destruct (st =? 200); [|done].
  cbn. by destruct (csize d + len (compress content) >? CACHE_LIMIT).
Qed.

Lemma load_rows_cons line_item rows d :
  load_rows (line_item :: rows) d =
    match load_row line_item d with
    | (t, Ok (Continue d')) =>
        let '(t', r) := load_rows rows d' in (t ++ t', r)
    | (t, Ok (Break d')) => (t, Ok (Break d'))
    | (t, Raise e) => (t, Raise e)
    end.
Proof.
  cbn. destruct (load_row line_item d) as [t [[d'|d']|e]]; cbn; try done.
  by rewrite app_nil_r.
Qed.

(** The loop over [pre ++ post] is the loop over [pre], and then, unless
    that broke off or raised, the loop over [post]. *)
Lemma load_rows_app pre : ∀ post d,
  load_rows (pre ++ post) d =
    match load_rows pre d with
    | (t, Ok (Continue d')) =>
        let '(t', r) := load_rows post d' in (t ++ t', r)
    | (t, Ok (Break d')) => (t, Ok (Break d'))
    | (t, Raise e) => (t, Raise e)
    end.
Proof.
  induction pre as [|row pre IH]; intros post d.
  { cbn. by destruct (load_rows post d). }
  rewrite <- app_comm_cons, !load_rows_cons.
  destruct (load_row row d) as [t [[d'|d']|e]]; try done.
  rewrite IH. destruct (load_rows pre d') as [t1 [[d1|d1]|e1]]; try done.
  destruct (load_rows post d1) as [t2 r2]. by rewrite app_assoc.
Qed.

Lemma dict_get_set key value k d :
  dict_get k (dict_set key value d) =
    if decide (key = k) then Some value else dict_get k d.
Proof.
  induction d as [|[k' v'] d IH]; simpl.
  - by destruct (decide (key = k)).
  - destruct (decide (k' = key)) as [->|Hne]; simpl.
    + by destruct (decide (key = k)).
    + destruct (decide (k' = k)) as [->|Hne'].
      * by destruct (decide (key = k)) as [->|].
      * apply IH.
Qed.

Lemma fetched_later row rows t t' k v :
  fetched rows t' k v → fetched (row :: rows) (t ++ t') k v.
Proof.
  intros (Ht & [cols Hc] & Ho). split; [apply elem_of_app; by right|].
  split; [|done]. exists cols. by right.
Qed.

Lemma load_rows_fetched rows : ∀ d0 t f k v,
  load_rows rows d0 = (t, Ok f) →
  dict_get k (cache_of f) = Some v →
  dict_get k d0 = Some v ∨ fetched rows t k v.
Proof.
  induction rows as [|row rows IH]; intros d0 t f k v Hrun Hget.
  { cbn in Hrun. injection Hrun as <- <-. by left. }
  rewrite load_rows_cons, load_row_spec in Hrun.
  destruct (csize d0 <? CACHE_LIMIT).
  2:{ destruct (load_rows rows d0) as [t' r] eqn:Hrest.
      injection Hrun as <- ->.
      destruct (IH _ _ _ _ _ Hrest Hget) as [?|Hf]; [by left|right].
      by apply (fetched_later row rows []). }
  destruct row as [|query cols]; [done|].
  destruct (origin (url_of query)) as [st content|] eqn:Horigin; [|done].
  destruct (st =? 200) eqn:Hst.
  - apply Z.eqb_eq in Hst as ->.
    destruct (csize d0 + len (compress content) >? CACHE_LIMIT).
    { injection Hrun as <- <-. by left. }
    destruct (load_rows rows (dict_set query (compress content) d0))
      as [t' r] eqn:Hrest.
    injection Hrun as <- ->.
    destruct (IH _ _ _ _ _ Hrest Hget) as [Hd|Hf].
    + rewrite dict_get_set in Hd. destruct (decide (query = k)) as [->|_].
      * injection Hd as <-. right. split; [left|]. split; [exists cols; left|].
        by exists content.
      * by left.
    + right. by apply (fetched_later _ rows [_]).
  - destruct (load_rows rows d0) as [t' r] eqn:Hrest.
    injection Hrun as <- ->.
    destruct (IH _ _ _ _ _ Hrest Hget) as [?|Hf]; [by left|right].
    by apply (fetched_later _ rows [_]).
Qed.

Lemma load_popularity_data_inv rows t d :
  load_popularity_data rows = (t, Ok d) →
  ∃ f, load_rows rows [] = (t, Ok f) ∧ d = cache_of f.
Proof.
  unfold Http.load_popularity_data. cbn.
  destruct (load_rows rows []) as [t' [f|e]]; cbn; [|done].
  rewrite app_nil_r. intros [= <- <-]. by exists f.
Qed.

(** Every entry of the loaded cache was fetched during the load. *)
Lemma load_popularity_data_fetched rows t d k v :
  load_popularity_data rows = (t, Ok d) →
  dict_get k d = Some v → fetched rows t k v.
Proof.
  intros (f & Hrun & ->)%load_popularity_data_inv Hget.
  by destruct (load_rows_fetched rows [] t f k v Hrun Hget).
Qed.

(** A row whose payload passes the test of the loop is stored. *)
Lemma load_rows_store_step query cols rows d content :
  csize d < CACHE_LIMIT →
  origin (url_of query) = Response 200 content →
  csize d + len (compress content) ≤ CACHE_LIMIT →
  load_rows ((query :: cols) :: rows) d =
    let '(t, r) := load_rows rows (dict_set query (compress content) d) in
    (OriginGet (url_of query) :: t, r).
Proof.
  intros Hlt Horigin Hfit. rewrite load_rows_cons, load_row_spec, Horigin.
  destruct (csize d <? CACHE_LIMIT) eqn:Hc; [|lia].
  destruct (csize d + len (compress content) >? CACHE_LIMIT) eqn:Hg; [lia|].
  cbn. by destruct (load_rows rows _).
Qed.

(** A row whose payload fails it breaks the loop. *)
Lemma load_rows_break_step query cols rows d content :
  csize d < CACHE_LIMIT →
  origin (url_of query) = Response 200 content →
  csize d + len (compress content) > CACHE_LIMIT →
  load_rows ((query :: cols) :: rows) d =
    ([OriginGet (url_of query)], Ok (Break d)).
Proof.
  intros Hlt Horigin Hover. rewrite load_rows_cons, load_row_spec, Horigin.
  destruct (csize d <? CACHE_LIMIT) eqn:Hc; [|lia].
  by destruct (csize d + len (compress content) >? CACHE_LIMIT) eqn:Hg; [|lia].
Qed.




(** C5, as the code has it. A row whose key the origin answers with a
    status other than 200 costs one request and changes nothing: the loop
    goes on with the next row and the same cache.  A row for which the
    origin cannot be reached ends the load with the exception of that one
    request.  And a key the origin does not answer with a 200 is in no
    cache the loader produces. *)
Theorem preload_failures (query : string) (cols : list string)
    (rows : list (list string)) (d : cache) (n : Z) :
  cache_size d = Some n → n < CACHE_LIMIT →
  (∀ status content,
     origin (url_of query) = Response status content → status ≠ 200 →
     load_rows ((query :: cols) :: rows) d =
       let '(t, r) := load_rows rows d in (OriginGet (url_of query) :: t, r)) ∧
  (origin (url_of query) = Unreachable →
     load_rows ((query :: cols) :: rows) d =
       ([OriginGet (url_of query)], Raise RequestException)) ∧
  ((∀ content, origin (url_of query) ≠ Response 200 content) →
     ∀ rows' t' d', load_popularity_data rows' = (t', Ok d') →
                    dict_get query d' = None).
Proof.
  intros Hsize Hlt. rewrite cache_size_closed_form in Hsize.
  injection Hsize as <-.
  assert (Hc : (csize d <? CACHE_LIMIT) = true) by lia.
  split; [|split].
  - intros st content Horigin Hst.
    rewrite load_rows_cons, load_row_spec, Hc, Horigin.
    destruct (st =? 200) eqn:Heq; [lia|]. by destruct (load_rows rows d).
  - intros Horigin. by rewrite load_rows_cons, load_row_spec, Hc, Horigin.
  - intros Hno rows' t' d' Hrun.
    destruct (dict_get query d') as [v|] eqn:Hget; [|done].
    destruct (load_popularity_data_fetched rows' t' d' query v Hrun Hget)
      as (_ & _ & content & Ho & _). by destruct (Hno content).
Qed.

End LoaderFacts.


(** * The request handler *)

Section HandlerFacts.
Import Py Http.
Variable decompress : bytes → option bytes.
Variable build_request_URL : string → Z → string → string.
Variable origin : string → reply.
Variable origin_hostname : string.

#[local] Abbreviation do_GET :=
  (Http.do_GET decompress build_request_URL origin origin_hostname).
#[local] Abbreviation served :=
  (Http.served decompress build_request_URL origin origin_hostname).

Lemma do_GET_content d path :
  path ≠ "/grading/beacon" →
  ∃ t r, do_GET d path = (bad_request path ++ t, r) ∧
         served d (List.last (split "/" path) EmptyString) t r.
Proof.
  intros Hpath. unfold Http.do_GET, Http.served, bad_request.
  destruct (decide (path = "/grading/beacon")) as [|_]; [done|].
  set (query := List.last (split "/" path) EmptyString).
  set (bad := if len (split "/" path) >? 2
              then emit (SendError 400 "Bad request") else ret tt).
  assert (Hbad : bad = ((if len (split "/" path) >? 2
                         then [SendError 400 "Bad request"] else []), Ok tt)).
  { unfold bad. by destruct (len (split "/" path) >? 2). }
  rewrite Hbad. clear bad Hbad. cbn.
  destruct (dict_get query d) as [cached|].
  - destruct (decompress cached) as [response|]; cbn.
    + by eexists _, _.
    + eexists [], _. by rewrite app_nil_r.
  - unfold requests_get.
    destruct (origin (build_request_URL origin_hostname 8080 query))
      as [st content|]; cbn.
    + destruct (st =? 200); cbn; by eexists _, _.
    + by eexists _, _.
Qed.

(** C7, as the code has it. For the path [/grading/beacon] the handler
    sends status 204 and the content-type header, asks the origin nothing
    and answers the same whatever the cache holds; but the body it writes
    is not empty: it is the 30 bytes of [Response code: NO CONTENT(204)]. *)
Theorem beacon_204_writes_body (d : cache) :
  do_GET d "/grading/beacon" =
    ([SendResponse 204; SendHeader "Content-type" "text/html"; EndHeaders;
      WfileWrite (encode "Response code: NO CONTENT(204)")], Ok tt) ∧
  len (encode "Response code: NO CONTENT(204)") = 30.
Proof. split; reflexivity. Qed.

(** C8. A path other than the beacon's that splits into more than two parts
    draws a 400, and the handler goes on all the same: the events after the
    400 are those of the lookup, and on a miss the origin fetch, for the
    last part of the path. *)
Theorem nested_path_400_then_lookup (d : cache) (path : string) :
  path ≠ "/grading/beacon" → len (split "/" path) > 2 →
  ∃ t r, do_GET d path = (SendError 400 "Bad request" :: t, r) ∧
         served d (List.last (split "/" path) EmptyString) t r.
Proof.
  intros Hpath Hlen. destruct (do_GET_content d path Hpath) as (t & r & Hrun & Hs).
  exists t, r. split; [|done]. rewrite Hrun. unfold bad_request.
  destruct (len (split "/" path) >? 2) eqn:Hgt; [done|]. lia.
Qed.

Lemma split_trailing sep p :
  ∃ segs, split sep (String.append p (String sep EmptyString))
          = segs ++ [EmptyString] ∧ segs ≠ [].
Proof.
  induction p as [|c p (segs & IH & Hne)]; simpl.
  - rewrite Ascii.eqb_refl. by exists [EmptyString].
  - destruct (Ascii.eqb c sep).
    + exists (EmptyString :: segs). by rewrite IH.
    + rewrite IH. destruct segs as [|seg segs]; [done|].
      by exists (String c seg :: segs).
Qed.

Lemma last_trailing sep p :
  List.last (split sep (String.append p (String sep EmptyString))) EmptyString
    = EmptyString.
Proof.
  destruct (split_trailing sep p) as (segs & -> & _). apply List.last_last.
Qed.

(** C10. For a path that ends in a slash the content key is the empty
    string, and the handler treats it as any other key: it looks the empty
    string up in the cache, serves a hit, and on a miss asks the origin for
    the empty key.  The root path [/] draws no 400. *)
Theorem trailing_slash_empty_key (d : cache) (p : string) :
  let path := String.append p "/" in
  List.last (split "/" path) EmptyString = EmptyString ∧
  bad_request "/" = [] ∧
  ∃ t r, do_GET d path = (bad_request path ++ t, r) ∧
         served d EmptyString t r ∧
         (dict_get EmptyString d = None →
          ∃ t', t = OriginGet (build_request_URL origin_hostname 8080 EmptyString)
                      :: t').
Proof.
  intros path. pose proof (last_trailing "/" p) as Hlast. fold path in Hlast.
  split; [done|]. split; [done|].
  destruct (do_GET_content d path) as (t & r & Hrun & Hs).
  { intros Heq. rewrite Heq in Hlast. discriminate Hlast. }
  rewrite Hlast in Hs. exists t, r. split; [done|]. split; [done|].
  intros Hmiss. unfold Http.served in Hs. rewrite Hmiss in Hs. simpl in Hs.
  destruct (origin (build_request_URL origin_hostname 8080 EmptyString))
    as [st content|].
  - destruct (st =? 200); destruct Hs as [-> _]; by eexists.
  - destruct Hs as [-> _]. by eexists.
Qed.

End HandlerFacts.

Lemma nested_path_400_then_lookup_witness :
  "/a/Dog" ≠ "/grading/beacon" ∧ Py.len (Py.split "/" "/a/Dog") > 2 ∧
  ∃ t r,
    Http.do_GET Concrete.framed_decompress Concrete.build_request_URL
      Concrete.pets "origin" Concrete.pets_cache "/a/Dog"
      = (Http.SendError 400 "Bad request" :: t, r) ∧
    Http.served Concrete.framed_decompress Concrete.build_request_URL
      Concrete.pets "origin" Concrete.pets_cache
      (List.last (Py.split "/" "/a/Dog") EmptyString) t r.
Proof.
  split; [discriminate|]. split; [reflexivity|].
  apply (nested_path_400_then_lookup Concrete.framed_decompress
           Concrete.build_request_URL Concrete.pets "origin"
           Concrete.pets_cache "/a/Dog"); [discriminate | reflexivity].
Defined.

(** The same request, run: the 400, and then the cached page all the same. *)
Example nested_path_run :
  Http.do_GET Concrete.framed_decompress Concrete.build_request_URL
    Concrete.pets "origin" Concrete.pets_cache "/a/Dog"
  = (Http.SendError 400 "Bad request"
       :: Http.ok_response (Py.encode "woof woof"), Py.Ok tt).
Proof. reflexivity. Qed.

(** The root path, run on a cache without the empty key: no 400, and an
    origin request for the empty key. *)
Example root_path_run :
  Http.do_GET Concrete.framed_decompress Concrete.build_request_URL
    Concrete.pets "origin" Concrete.pets_cache "/"
  = (Http.OriginGet "http://origin:8080/" :: Http.ok_response (Py.encode "index"),
     Py.Ok tt).
Proof. reflexivity. Qed.

(** * From preload to request *)

Section PreloadFacts.
Import Py Http.
Variable getsizeof : pyobj → Z.
Variable compress : bytes → bytes.
Variable decompress : bytes → option bytes.
Variable build_request_URL : string → Z → string → string.
Variable origin : string → reply.
Variable origin_hostname : string.

(** C6. With a codec whose decompression undoes its compression (zlib's
    law), every entry the loader stored decompresses to the very body the
    origin returned for its key during the load, and a request whose path
    ends in that key is answered with that body. *)
Theorem preload_roundtrip (rows : list (list string)) (t : list event)
    (d : cache) (key : string) (v : bytes) :
  (∀ b, decompress (compress b) = Some b) →
  load_popularity_data getsizeof compress build_request_URL origin
    origin_hostname rows = (t, Ok d) →
  dict_get key d = Some v →
  ∃ content,
    OriginGet (build_request_URL origin_hostname ORIGIN_PORT key) ∈ t ∧
    origin (build_request_URL origin_hostname ORIGIN_PORT key)
      = Response 200 content ∧
    v = compress content ∧
    decompress v = Some content ∧
    ∀ path, path ≠ "/grading/beacon" →
      List.last (split "/" path) EmptyString = key →
      do_GET decompress build_request_URL origin origin_hostname d path
        = (bad_request path ++ ok_response content, Ok tt).
Proof.
  intros Hzlib Hrun Hget.
  destruct (load_popularity_data_fetched _ _ _ _ _ _ _ _ _ _ Hrun Hget)
    as (Ht & _ & content & Ho & ->).
  exists content. split; [done|]. split; [done|]. split; [done|].
  split; [apply Hzlib|]. intros path Hpath Hlast.
  destruct (do_GET_content decompress build_request_URL origin origin_hostname
              d path Hpath) as (t' & r & -> & Hs).
  unfold Http.served in Hs. rewrite Hlast, Hget, Hzlib in Hs.
  by destruct Hs as [-> ->].
Qed.

End PreloadFacts.

(** * The model at work: CPython's sizes, the framing codec *)

Section Runs.
Import Py Http Concrete.

#[local] Abbreviation load_rows' origin :=
  (Http.load_rows cpython_getsizeof framed_compress build_request_URL origin
     "origin").
#[local] Abbreviation load' origin :=
  (Http.load_popularity_data cpython_getsizeof framed_compress
     build_request_URL origin "origin").
#[local] Abbreviation size' := (Http.cache_size cpython_getsizeof).

Lemma len_blob n : len (blob n) = Z.of_N n.
Proof. unfold len, blob. rewrite repeat_length. lia. Qed.

Lemma len_framed b : len (framed_compress b) = 2 + len b.
Proof. unfold len, framed_compress. cbn [length]. lia. Qed.

Lemma framed_roundtrip b : framed_decompress (framed_compress b) = Some b.
Proof. reflexivity. Qed.

Lemma cpython_csize_nil : csize cpython_getsizeof [] = 64.
Proof. reflexivity. Qed.

Lemma cpython_csize_one k v :
  csize cpython_getsizeof [(k, v)]
    = 281 + Z.of_nat (String.length k) + (33 + len v).
Proof.
  unfold csize, payload_sizes, key_sizes. cbn [foldr entry_ids fst snd].
  change (cpython_getsizeof (PDict [(2, 3)%positive])) with 232.
  cbn [cpython_getsizeof]. lia.
Qed.

Lemma big_dog_page page :
  big_dog page (build_request_URL "origin" ORIGIN_PORT "Dog")
    = Response 200 page.
Proof. reflexivity. Qed.

(** One row, one page of [n] bytes: if the empty dict and the compressed
    page are within the budget, the page is stored, whatever the stored
    entry then measures. *)
Lemma one_big_page page :
  64 + (2 + len page) ≤ CACHE_LIMIT →
  load' (big_dog page) [["Dog"]]
    = ([OriginGet "http://origin:8080/Dog"],
       Ok [("Dog", framed_compress page)]) ∧
  size' [("Dog", framed_compress page)] = Some (319 + len page).
Proof.
  intros Hfit. split.
  - unfold Http.load_popularity_data.
    rewrite (load_rows_store_step _ _ _ _ _ "Dog" [] [] [] page).
    + reflexivity.
    + rewrite cpython_csize_nil. by compute.
    + apply big_dog_page.
    + rewrite cpython_csize_nil, len_framed. exact Hfit.
  - rewrite cache_size_closed_form, cpython_csize_one, len_framed.
    f_equal. cbn [String.length]. lia.
Qed.

(** C1, at an input that breaks it. The origin's page for the one key
    compresses to 19,999,700 bytes.  Before the insertion the cache measures
    64 bytes and 64 + 19,999,700 is within the budget, so the page is
    stored; the loaded cache then measures 20,000,017 bytes, which is over
    the budget of 20,000,000. *)
Theorem load_overshoots_budget :
  ∃ d n,
    load' (big_dog (blob 19999698)) [["Dog"]]
      = ([OriginGet "http://origin:8080/Dog"], Ok d) ∧
    len (framed_compress (blob 19999698)) = 19999700 ∧
    size' d = Some n ∧ n = 20000017 ∧ n > CACHE_LIMIT.
Proof.
  destruct (one_big_page (blob 19999698)) as [Hrun Hsize].
  { rewrite len_blob. by compute. }
  rewrite len_blob in Hsize.
  exists [("Dog", framed_compress (blob 19999698))], 20000017.
  split; [exact Hrun|]. split; [by rewrite len_framed, len_blob|].
  split; [exact Hsize|]. split; [reflexivity|]. by compute.
Qed.

(** Two rows that name the same key, and a page of 11,000,000 bytes: the
    first row stores it, the second finds that one more such page would
    exceed the budget, and the loop breaks. *)
Lemma same_key_twice page :
  len page = 11000000 →
  load_rows' (big_dog page) [["Dog"]] []
    = ([OriginGet "http://origin:8080/Dog"],
       Ok (Continue [("Dog", framed_compress page)])) ∧
  size' [("Dog", framed_compress page)] = Some 11000319 ∧
  load' (big_dog page) [["Dog"]; ["Dog"]]
    = ([OriginGet "http://origin:8080/Dog"; OriginGet "http://origin:8080/Dog"],
       Ok [("Dog", framed_compress page)]).
Proof.
  intros Hlen.
  assert (Hsize : csize cpython_getsizeof [("Dog", framed_compress page)]
                  = 11000319).
  { rewrite cpython_csize_one, len_framed, Hlen. reflexivity. }
  assert (Hfirst : ∀ rows, load_rows' (big_dog page) (["Dog"] :: rows) [] =
            let '(t, r) := load_rows' (big_dog page) rows
                             [("Dog", framed_compress page)] in
            (OriginGet "http://origin:8080/Dog" :: t, r)).
  { intros rows.
    rewrite (load_rows_store_step _ _ _ _ _ "Dog" [] rows [] page);
      [reflexivity | | apply big_dog_page |].
    - rewrite cpython_csize_nil. by compute.
    - rewrite cpython_csize_nil, len_framed, Hlen. by compute. }
  split; [by rewrite Hfirst|].
  split; [by rewrite cache_size_closed_form, Hsize|].
  unfold Http.load_popularity_data. rewrite Hfirst.
  rewrite (load_rows_break_step _ _ _ _ _ "Dog" [] [] _ page);
    [reflexivity | | apply big_dog_page |].
  - rewrite Hsize. by compute.
  - rewrite Hsize, len_framed, Hlen. by compute.
Qed.





(** Against C5 as it is worded. The origin cannot be reached for [Bird]:
    the load ends with the exception, no cache is produced, and the next
    key, [Cat], is never asked for. *)
Lemma unreachable_origin_ends_load :
  load' pets [["Dog"]; ["Bird"]; ["Cat"]]
    = ([OriginGet "http://origin:8080/Dog";
        OriginGet "http://origin:8080/Bird"], Raise RequestException) ∧
  ¬ ∃ t d, load' pets [["Dog"]; ["Bird"]; ["Cat"]] = (t, Ok d).
Proof.
  assert (Hrun : load' pets [["Dog"]; ["Bird"]; ["Cat"]]
            = ([OriginGet "http://origin:8080/Dog";
                OriginGet "http://origin:8080/Bird"], Raise RequestException)).
  { vm_compute. reflexivity. }
  split; [exact Hrun|]. intros (t & d & Hok). rewrite Hrun in Hok.
  discriminate Hok.
Qed.

Lemma preload_failures_witness :
  size' [] = Some 64 ∧ 64 < CACHE_LIMIT ∧
  (∀ status content,
     pets (build_request_URL "origin" ORIGIN_PORT "Cat")
       = Response status content → status ≠ 200 →
     load_rows' pets (["Cat"] :: [["Dog"]]) [] =
       let '(t, r) := load_rows' pets [["Dog"]] [] in
       (OriginGet (build_request_URL "origin" ORIGIN_PORT "Cat") :: t, r)) ∧
  (pets (build_request_URL "origin" ORIGIN_PORT "Cat") = Unreachable →
     load_rows' pets (["Cat"] :: [["Dog"]]) [] =
       ([OriginGet (build_request_URL "origin" ORIGIN_PORT "Cat")],
        Raise RequestException)) ∧
  ((∀ content, pets (build_request_URL "origin" ORIGIN_PORT "Cat")
                 ≠ Response 200 content) →
     ∀ rows' t' d', load' pets rows' = (t', Ok d') →
                    dict_get "Cat" d' = None).
Proof.
  split; [reflexivity|]. split; [by compute|].
  apply (preload_failures cpython_getsizeof framed_compress build_request_URL
           pets "origin" "Cat" [] [["Dog"]] [] 64); [reflexivity | by compute].
Defined.

(** The rows [Dog], [Cat] against that origin: [Dog] is stored, [Cat], a
    404, is asked for once and left out. *)
Example pets_preload :
  load' pets [["Dog"]; ["Cat"]]
    = ([OriginGet "http://origin:8080/Dog"; OriginGet "http://origin:8080/Cat"],
       Ok pets_cache).
Proof. vm_compute. reflexivity. Qed.

Lemma preload_roundtrip_witness :
  (∀ b, framed_decompress (framed_compress b) = Some b) ∧
  ∃ content,
    OriginGet (build_request_URL "origin" ORIGIN_PORT "Dog")
      ∈ [OriginGet "http://origin:8080/Dog"; OriginGet "http://origin:8080/Cat"] ∧
    pets (build_request_URL "origin" ORIGIN_PORT "Dog") = Response 200 content ∧
    framed_compress (encode "woof woof") = framed_compress content ∧
    framed_decompress (framed_compress (encode "woof woof")) = Some content ∧
    ∀ path, path ≠ "/grading/beacon" →
      List.last (split "/" path) EmptyString = "Dog" →
      do_GET framed_decompress build_request_URL pets "origin" pets_cache path
        = (bad_request path ++ ok_response content, Ok tt).
Proof.
  split; [exact framed_roundtrip|].
  apply (preload_roundtrip cpython_getsizeof framed_compress framed_decompress
           build_request_URL pets "origin" [["Dog"]; ["Cat"]]
           [OriginGet "http://origin:8080/Dog"; OriginGet "http://origin:8080/Cat"]
           pets_cache "Dog" (framed_compress (encode "woof woof"))).
  - exact framed_roundtrip.
  - vm_compute. reflexivity.
  - reflexivity.
Defined.

End Runs.

(** * The DNS responder *)

Section ResponderFacts.
Import Py Dns.
Variable parse : bytes → option DNSRecord.
Variable pack : DNSRecord → bytes.
Variable NAME : string.

#[local] Abbreviation parse_dig_query := (Dns.parse_dig_query parse pack NAME).
#[local] Abbreviation serve := (Dns.serve parse pack NAME).

Lemma drop_last_dot s : drop_last (String.append s ".") = s.
Proof.
  induction s as [|c s IH]; [done|]. simpl. rewrite IH.
  by destruct s.
Qed.

(** [str(qname)[:-1]] is the name without its closing dot. *)
Lemma drop_last_label l : drop_last (label_str l) = String.concat "." l.
Proof. apply drop_last_dot. Qed.

(** C2. A query that parses, asks for type 1 and names the service (its
    name without the closing dot is [NAME]) is answered: the function
    returns the packed form of a record with the id of the query, its one
    question, and one answer that binds the queried name to the address the
    query came from; and the loop sends that datagram back to the sender
    and goes on. *)
Theorem matching_query_answered (data : bytes) (addr : address)
    (dig_query : DNSRecord) :
  parse data = Some dig_query →
  qtype (get_q dig_query) = 1 →
  drop_last (label_str (qname (get_q dig_query))) = NAME →
  ∃ response,
    parse_dig_query data addr = Ok (Some (pack response)) ∧
    id (header response) = id (header dig_query) ∧
    questions response = [get_q dig_query] ∧
    rr response = [ {| rname := qname (get_q dig_query); rtype := 1;
                       rclass := 1; ttl := 0; rdata := A (fst addr) |} ] ∧
    ∀ inbox, serve ((data, addr) :: inbox) =
               let '(sent, st) := serve inbox in
               ((pack response, addr) :: sent, st).
Proof.
  intros Hparse Htype Hname. exists (response_for dig_query addr).
  assert (Hrun : parse_dig_query data addr
                 = Ok (Some (pack (response_for dig_query addr)))).
  { unfold Dns.parse_dig_query. rewrite Hparse, Htype, Hname.
    by rewrite bool_decide_eq_true_2. }
  split; [exact Hrun|]. split; [done|]. split.
  { unfold response_for. simpl. by destruct (get_q dig_query). }
  split; [done|]. intros inbox.
  change (serve ((data, addr) :: inbox)) with
    (match parse_dig_query data addr with
     | Raise e => ([], Crashed e)
     | Ok dig_response =>
         match sendto dig_response addr with
         | Raise e => ([], Crashed e)
         | Ok datagram =>
             let '(sent, st) := serve inbox in (datagram :: sent, st)
         end
     end).
  by rewrite Hrun.
Qed.

(** C3, as the code has it. For a query that parses and asks for another
    type or another name, [parse_dig_query] returns [None] and nothing is
    sent; but the loop hands that [None] to [sendto], which raises, and the
    loop ends there: the datagrams behind it are never read. *)
Theorem unmatched_query_stops_server (data : bytes) (addr : address)
    (dig_query : DNSRecord) (inbox : list (bytes * address)) :
  parse data = Some dig_query →
  qtype (get_q dig_query) ≠ 1 ∨
    drop_last (label_str (qname (get_q dig_query))) ≠ NAME →
  parse_dig_query data addr = Ok None ∧
  serve ((data, addr) :: inbox) = ([], Crashed TypeError).
Proof.
  intros Hparse Hmiss.
  assert (Hrun : parse_dig_query data addr = Ok None).
  { unfold Dns.parse_dig_query. rewrite Hparse.
    destruct Hmiss as [Htype|Hname].
    - by destruct (qtype (get_q dig_query) =? 1) eqn:Heq; [lia|].
    - rewrite (bool_decide_eq_false_2 _ Hname). by rewrite andb_false_r. }
  split; [exact Hrun|].
  change (serve ((data, addr) :: inbox)) with
    (match parse_dig_query data addr with
     | Raise e => ([], Crashed e)
     | Ok dig_response =>
         match sendto dig_response addr with
         | Raise e => ([], Crashed e)
         | Ok datagram =>
             let '(sent, st) := serve inbox in (datagram :: sent, st)
         end
     end).
  by rewrite Hrun.
Qed.

End ResponderFacts.

Section Digs.
Import Py Dns Concrete.

#[local] Abbreviation answer := (Dns.parse_dig_query wire_parse wire_pack).
#[local] Abbreviation serve := (Dns.serve wire_parse wire_pack).

Lemma matching_query_answered_witness :
  wire_parse (wire_pack (query_for ["example"; "com"] 1))
    = Some (query_for ["example"; "com"] 1) ∧
  drop_last (label_str ["example"; "com"]) = "example.com" ∧
  ∃ response,
    answer "example.com" (wire_pack (query_for ["example"; "com"] 1)) client
      = Ok (Some (wire_pack response)) ∧
    id (header response) = 4660 ∧
    questions response
      = [ {| qname := ["example"; "com"]; qtype := 1; qclass := 1 |} ] ∧
    rr response = [ {| rname := ["example"; "com"]; rtype := 1; rclass := 1;
                       ttl := 0; rdata := A "10.0.0.7" |} ] ∧
    ∀ inbox,
      serve "example.com"
        ((wire_pack (query_for ["example"; "com"] 1), client) :: inbox) =
        let '(sent, st) := serve "example.com" inbox in
        ((wire_pack response, client) :: sent, st).
Proof.
  split; [vm_compute; reflexivity|]. split; [reflexivity|].
  apply (matching_query_answered wire_parse wire_pack "example.com"
           (wire_pack (query_for ["example"; "com"] 1)) client
           (query_for ["example"; "com"] 1)).
  - vm_compute. reflexivity.
  - reflexivity.
  - reflexivity.
Defined.

Lemma unmatched_query_stops_server_witness :
  wire_parse (wire_pack (query_for ["other"; "com"] 1))
    = Some (query_for ["other"; "com"] 1) ∧
  answer "example.com" (wire_pack (query_for ["other"; "com"] 1)) client
    = Ok None ∧
  serve "example.com"
    ((wire_pack (query_for ["other"; "com"] 1), client)
       :: [(wire_pack (query_for ["example"; "com"] 1), client)])
    = ([], Crashed TypeError).
Proof.
  split; [vm_compute; reflexivity|].
  apply (unmatched_query_stops_server wire_parse wire_pack "example.com"
           (wire_pack (query_for ["other"; "com"] 1)) client
           (query_for ["other"; "com"] 1)
           [(wire_pack (query_for ["example"; "com"] 1), client)]).
  - vm_compute. reflexivity.
  - right. discriminate.
Defined.

(** The answer to [example.com. A], on the wire: the id [0x1234], the flags
    QR, AA and RA, one question, one answer, and the sender's address as
    the last four bytes. *)
Example answer_on_the_wire :
  answer "example.com" (wire_pack (query_for ["example"; "com"] 1)) client
  = Ok (Some
      [x12; x34; x84; x80; x00; x01; x00; x01; x00; x00; x00; x00;
       x07; x65; x78; x61; x6d; x70; x6c; x65; x03; x63; x6f; x6d; x00;
       x00; x01; x00; x01;
       x07; x65; x78; x61; x6d; x70; x6c; x65; x03; x63; x6f; x6d; x00;
       x00; x01; x00; x01; x00; x00; x00; x00; x00; x04;
       x0a; x00; x00; x07]).
Proof. vm_compute. reflexivity. Qed.

(** A query for another record type (AAAA) of the service's own name is
    not answered either, and ends the loop the same way. *)
Example aaaa_query_stops_server :
  serve "example.com" [(wire_pack (query_for ["example"; "com"] 28), client)]
  = ([], Crashed TypeError).
Proof. vm_compute. reflexivity. Qed.

End Digs.

(** * More on the size walker: what it visits *)

Section WalkerReach.
Import Py.
Variable getsizeof : pyobj → Z.

#[local] Abbreviation total := (Py.total getsizeof).
#[local] Abbreviation get_cache_size := (Py.get_cache_size getsizeof).

Lemma explored_seq h s0 s1 s2 xs ys :
  explored h s0 s1 xs → explored h s1 s2 ys → explored h s0 s2 (xs ++ ys).
Proof.
  intros (H01 & Hx & Hnew1) (H12 & Hy & Hnew2). split; [set_solver|]. split.
  - intros x [?|?]%elem_of_app; [apply H12|]; auto.
  - intros a Ha Hn. destruct (decide (a ∈ s1)) as [Ha1|Ha1].
    + destruct (Hnew1 a Ha1 Hn) as [(x & Hxin & Hr) Hrefs]. split.
      * exists x. split; [apply elem_of_app; by left|done].
      * intros o b Ho Hb. apply H12. by eapply Hrefs.
    + destruct (Hnew2 a Ha Ha1) as [(y & Hyin & Hr) Hrefs]. split; [|done].
      exists y. split; [apply elem_of_app; by right|done].
Qed.

Lemma explored_none h s : explored h s s [].
Proof.
  split; [done|]. split; [intros x Hx; by apply elem_of_nil in Hx|].
  intros a Ha Hn. done.
Qed.

Lemma sum_sizes_explores h (rec : addr → gset addr → walk) xs :
  (∀ x s n s', x ∈ xs → rec x s = Some (n, s') → explored h s s' [x]) →
  ∀ seen n s', sum_sizes rec xs seen = Some (n, s') → explored h seen s' xs.
Proof.
  induction xs as [|x xs IH]; intros Hrec seen n s' Hsum.
  { injection Hsum as _ <-. apply explored_none. }
  simpl in Hsum. destruct (rec x seen) as [[n1 s1]|] eqn:Hx; [|done].
  simpl in Hsum.
  destruct (sum_sizes rec xs s1) as [[m s2]|] eqn:Hxs; [|done].
  injection Hsum as _ <-.
  apply (explored_seq h seen s1 s2 [x] xs).
  - apply (Hrec x seen n1 s1); [left|done].
  - apply (IH (λ y s n s' Hy, Hrec y s n s' (list_elem_of_further _ _ _ Hy))
             s1 m s2 Hxs).
Qed.

(** From the references of an object to the object itself. *)
Lemma explored_root h obj o seen s' :
  h !! obj = Some o → obj ∉ seen →
  explored h ({[obj]} ∪ seen) s' (refs o) → explored h seen s' [obj].
Proof.
  intros Ho Hn (Hsub & Hroots & Hnew). split; [set_solver|]. split.
  { intros x ->%list_elem_of_singleton. set_solver. }
  intros a Ha Hna. destruct (decide (a = obj)) as [->|Hne].
  - split; [exists obj; split; [left|constructor]|].
    intros o' b Ho' Hb. rewrite Ho in Ho'. injection Ho' as <-. by apply Hroots.
  - destruct (Hnew a Ha) as [(x & Hx & Hr) Hrefs]; [set_solver|].
    split; [|done]. exists obj. split; [left|]. by eapply reach_step.
Qed.

Lemma get_cache_size_explores h : ∀ fuel obj seen n s',
  get_cache_size fuel h obj seen = Some (n, s') → explored h seen s' [obj].
Proof.
  induction fuel as [|fuel IH]; intros obj seen n s' Hrun; [done|].
  assert (Hsum : ∀ xs s m s1,
            sum_sizes (get_cache_size fuel h) xs s = Some (m, s1) →
            explored h s s1 xs).
  { intros xs. apply sum_sizes_explores. intros x s m s1 _. apply IH. }
  simpl in Hrun. destruct (h !! obj) as [o|] eqn:Ho; [|done]. simpl in Hrun.
  destruct (decide (obj ∈ seen)) as [Hin|Hnin].
  { injection Hrun as _ <-. split; [done|]. split.
    - by intros x ->%list_elem_of_singleton.
    - intros a Ha Hn. done. }
  apply (explored_root h obj o seen s' Ho Hnin).
  destruct o as [str|b|items|elems dv|d|]; simpl.
  - injection Hrun as _ <-. apply explored_none.
  - injection Hrun as _ <-. apply explored_none.
  - destruct (sum_sizes (get_cache_size fuel h) items.*2 _)
      as [[vs s1]|] eqn:H1; [|done]. simpl in Hrun.
    destruct (sum_sizes (get_cache_size fuel h) items.*1 _)
      as [[ks s2]|] eqn:H2; [|done]. injection Hrun as _ <-.
    eapply explored_seq; eauto.
  - destruct (sum_sizes (get_cache_size fuel h) elems _)
      as [[es s1]|] eqn:H1; [|done]. simpl in Hrun.
    destruct dv as [v|].
    + destruct (get_cache_size fuel h v s1) as [[ds s2]|] eqn:H2; [|done].
      injection Hrun as _ <-. eapply explored_seq; eauto.
    + injection Hrun as _ <-. rewrite app_nil_r. eauto.
  - destruct (get_cache_size fuel h d _) as [[ds s1]|] eqn:H1; [|done].
    injection Hrun as _ <-. eauto.
  - injection Hrun as _ <-. apply explored_none.
Qed.

(** X1. On a store of live objects in which no iterable has a __dict__
    (dicts, lists, tuples and sets that hold their elements, plain
    instances, strs, bytes, scalars: every identity the walker meets is
    that of an object the store holds for the whole walk),
    [get_cache_size(obj)] is the sum of [sys.getsizeof] over the objects
    reached from [obj] by following references, each counted once: no
    reachable object is missed, and nothing else is counted. *)
Theorem measure_sums_reachable (h : heap) (obj : addr) :
  closed h → no_views h → is_Some (h !! obj) →
  ∃ vis, measure getsizeof h obj = Some (total h vis) ∧ NoDup vis ∧
         ∀ a, a ∈ vis ↔ reach h obj a.
Proof.
  intros Hcl _ Hobj%elem_of_dom. unfold measure.
  destruct (get_cache_size_counted getsizeof h Hcl (S (size h)) obj ∅ Hobj)
    as (vis & (Hrun & Hnd & _) & _).
  { rewrite difference_empty_L, size_dom. lia. }
  exists vis. rewrite Hrun. split; [done|]. split; [done|].
  destruct (get_cache_size_explores h _ _ _ _ _ Hrun) as (_ & Hroot & Hnew).
  assert (Hvis : ∀ a, a ∈ vis ↔ a ∈ (∅ ∪ list_to_set vis : gset addr))
    by set_solver.
  intros a. rewrite Hvis. split.
  - intros Ha. destruct (Hnew a Ha) as [(x & ->%list_elem_of_singleton & Hr) _];
      [set_solver|done].
  - assert (Hin : obj ∈ (∅ ∪ list_to_set vis : gset addr))
      by (apply Hroot; left).
    assert (Hrefs : ∀ x o b, x ∈ (∅ ∪ list_to_set vis : gset addr) →
              h !! x = Some o → b ∈ refs o →
              b ∈ (∅ ∪ list_to_set vis : gset addr)).
    { intros x o b Hx. destruct (Hnew x Hx) as [_ Hr]; [set_solver|]. apply Hr. }
    clear Hvis Hnew Hroot Hrun Hobj. revert Hrefs Hin.
    generalize (∅ ∪ list_to_set vis : gset addr).
    intros S Hrefs Hin Hr. induction Hr as [a|a o b c Ho Hb Hr IH]; [done|].
    apply IH. by eapply Hrefs.
Qed.

End WalkerReach.

Lemma measure_sums_reachable_witness :
  Py.closed Concrete.knot ∧ Py.no_views Concrete.knot ∧
  is_Some (Concrete.knot !! 1%positive) ∧
  ∃ vis,
    Py.measure Concrete.cpython_getsizeof Concrete.knot 1%positive
      = Some (Py.total Concrete.cpython_getsizeof Concrete.knot vis) ∧
    NoDup vis ∧ ∀ a, a ∈ vis ↔ Py.reach Concrete.knot 1%positive a.
Proof.
  assert (Hcl : Py.closed Concrete.knot)
    by (apply (bool_decide_unpack _); vm_compute; exact I).
  assert (Hnv : Py.no_views Concrete.knot)
    by (apply (bool_decide_unpack _); vm_compute; exact I).
  assert (Hlive : is_Some (Concrete.knot !! 1%positive))
    by (apply (bool_decide_unpack _); vm_compute; exact I).
  split; [exact Hcl|]. split; [exact Hnv|]. split; [exact Hlive|].
  exact (measure_sums_reachable Concrete.cpython_getsizeof Concrete.knot
           1%positive Hcl Hnv Hlive).
Defined.

(** The knot, measured: the dict, the list and the two keys, 404 bytes; the
    list is counted once though it is reached three times. *)
Example knot_measure :
  Py.measure Concrete.cpython_getsizeof Concrete.knot 1%positive = Some 404.
Proof. vm_compute. reflexivity. Qed.

(** * More on the popularity loader *)

Section LoaderMore.
Import Py Http.
Variable getsizeof : pyobj → Z.
Variable compress : bytes → bytes.
Variable build_request_URL : string → Z → string → string.
Variable origin : string → reply.
Variable origin_hostname : string.

#[local] Abbreviation cache_size := (Http.cache_size getsizeof).
#[local] Abbreviation csize := (Http.csize getsizeof).
#[local] Abbreviation load_row :=
  (Http.load_row getsizeof compress build_request_URL origin origin_hostname).
#[local] Abbreviation load_rows :=
  (Http.load_rows getsizeof compress build_request_URL origin origin_hostname).
#[local] Abbreviation load_popularity_data :=
  (Http.load_popularity_data getsizeof compress build_request_URL origin
     origin_hostname).
#[local] Abbreviation url_of :=
  (build_request_URL origin_hostname ORIGIN_PORT).
#[local] Abbreviation row_requests :=
  (Http.row_requests build_request_URL origin_hostname).
#[local] Abbreviation load_row_spec :=
  (load_row_spec getsizeof compress build_request_URL origin origin_hostname).
#[local] Abbreviation load_rows_cons :=
  (load_rows_cons getsizeof compress build_request_URL origin origin_hostname).
#[local] Abbreviation load_rows_app :=
  (load_rows_app getsizeof compress build_request_URL origin origin_hostname).

(** X2. For the cache, a dict from str to bytes in which every key and
    every payload is an object of its own, [get_cache_size(self.CACHE)]
    always returns, and returns the size of the dict plus, for every entry,
    the size of its key and the size of its payload. *)
Theorem cache_size_adds_up (d : cache) :
  cache_size d =
    Some (getsizeof (PDict (entry_ids 1 d)) +
          foldr Z.add 0
            (map (λ kv, getsizeof (PStr kv.1) + getsizeof (PBytes kv.2)) d)).
Proof.
  rewrite cache_size_closed_form. f_equal. unfold Http.csize.
  rewrite <- Z.add_assoc. f_equal.
  induction d as [|[k v] d IH]; simpl in *; lia.
Qed.

(** X3. Once the cache measures the budget or more, the rest of the rows
    costs nothing and changes nothing: no request is made, no row is looked
    at (an empty one raises nothing), and the loop runs to its end with the
    same cache. *)
Theorem full_cache_asks_nothing (rows : list (list string)) (d : cache)
    (n : Z) :
  cache_size d = Some n → CACHE_LIMIT ≤ n →
  load_rows rows d = ([], Ok (Continue d)).
Proof.
  intros Hsize Hfull. rewrite cache_size_closed_form in Hsize.
  injection Hsize as <-.
  induction rows as [|row rows IH]; [done|].
  rewrite load_rows_cons, load_row_spec.
  destruct (csize d <? CACHE_LIMIT) eqn:Hc; [lia|]. by rewrite IH.
Qed.

(** X4. A row without columns (a blank line of the CSV file), met while
    the cache is below the budget, ends the load with [IndexError]; the rows
    after it are not read. *)
Theorem blank_row_ends_load (pre post : list (list string))
    (t : list event) (d : cache) (n : Z) :
  load_rows pre [] = (t, Ok (Continue d)) →
  cache_size d = Some n → n < CACHE_LIMIT →
  load_popularity_data (pre ++ [] :: post) = (t, Raise IndexError).
Proof.
  intros Hpre Hsize Hlt. rewrite cache_size_closed_form in Hsize.
  injection Hsize as <-. unfold Http.load_popularity_data.
  rewrite load_rows_app, Hpre, load_rows_cons, load_row_spec.
  destruct (csize d <? CACHE_LIMIT) eqn:Hc; [|lia]. cbn. by rewrite app_nil_r.
Qed.

(** X5. The requests the loader makes are, in order, requests for keys of
    the rows in the order of the rows, at most one for each row: nothing is
    asked for twice on account of one row, and nothing no row names. *)
Theorem load_requests_follow_rows (rows : list (list string)) (d : cache) :
  sublist (load_rows rows d).1 (row_requests rows).
Proof.
  revert d. induction rows as [|row rows IH]; intros d; [constructor|].
  rewrite load_rows_cons, load_row_spec.
  assert (Hskip : ∀ d', sublist (load_rows rows d').1 (row_requests (row :: rows))).
  { intros d'. unfold Http.row_requests. cbn [flat_map].
    apply sublist_inserts_l, IH. }
  destruct (csize d <? CACHE_LIMIT).
  2:{ destruct (load_rows rows d) as [t r] eqn:Hrest. cbn.
      specialize (Hskip d). by rewrite Hrest in Hskip. }
  destruct row as [|query cols]; [apply sublist_nil_l|].
  assert (Hone : ∀ t, sublist t (row_requests rows) →
            sublist (OriginGet (url_of query) :: t)
                    (row_requests ((query :: cols) :: rows))).
  { intros t Ht. unfold Http.row_requests. cbn [flat_map app].
    by apply sublist_skip. }
  destruct (origin (url_of query)) as [st content|].
  2:{ cbn. apply Hone, sublist_nil_l. }
  destruct (st =? 200).
  - destruct (csize d + len (compress content) >? CACHE_LIMIT).
    + cbn. apply Hone, sublist_nil_l.
    + specialize (IH (dict_set query (compress content) d)).
      destruct (load_rows rows _) as [t r]. cbn. by apply Hone.
  - specialize (IH d). destruct (load_rows rows d) as [t r]. cbn.
    by apply Hone.
Qed.

Lemma dict_set_keys key value d :
  (dict_set key value d).*1 =
    if decide (key ∈ d.*1) then d.*1 else d.*1 ++ [key].
Proof.
  induction d as [|[k v] d IH]; cbn [dict_set].
  - case_decide as Hin; [by apply elem_of_nil in Hin|done].
  - destruct (decide (k = key)) as [->|Hne]; rewrite !fmap_cons; cbn [fst].
    + destruct (decide (key ∈ key :: d.*1)) as [|Hn]; [done|].
      destruct Hn. left.
    + rewrite IH. destruct (decide (key ∈ d.*1)) as [Hin|Hnin];
        destruct (decide (key ∈ k :: d.*1)) as [Hin'|Hnin']; try done.
      * destruct Hnin'. by right.
      * apply elem_of_cons in Hin' as [->|Hin']; done.
Qed.

Lemma dict_set_NoDup key value d : NoDup d.*1 → NoDup (dict_set key value d).*1.
Proof.
  intros Hnd. rewrite dict_set_keys. destruct (decide (key ∈ d.*1)); [done|].
  apply NoDup_app. split; [done|]. split; [|apply NoDup_singleton].
  intros x Hx ->%list_elem_of_singleton. done.
Qed.

(** What one turn of the loop can do to the cache: nothing, or one
    assignment. *)
Lemma load_row_cases line_item d t f :
  load_row line_item d = (t, Ok f) →
  cache_of f = d ∨
  ∃ query cols content,
    line_item = query :: cols ∧ f = Continue (dict_set query (compress content) d) ∧
    csize d + len (compress content) ≤ CACHE_LIMIT.
Proof.
  rewrite load_row_spec. destruct (csize d <? CACHE_LIMIT); [|intros [= _ <-]; by left].
  destruct line_item as [|query cols]; [done|].
  destruct (origin (url_of query)) as [st content|]; [|done].
  destruct (st =? 200); [|intros [= _ <-]; by left].
  destruct (csize d + len (compress content) >? CACHE_LIMIT) eqn:Hg;
    intros [= _ <-]; [by left|]. right. exists query, cols, content.
  split; [done|]. split; [done|]. lia.
Qed.

(** An invariant of the cache that every assignment the loop makes keeps
    is kept by the loop. *)
Lemma load_rows_invariant (P : cache → Prop) :
  (∀ d query content,
     P d → csize d + len (compress content) ≤ CACHE_LIMIT →
     P (dict_set query (compress content) d)) →
  ∀ rows d t f, P d → load_rows rows d = (t, Ok f) → P (cache_of f).
Proof.
  intros Hstep. induction rows as [|row rows IH]; intros d t f Hd Hrun.
  { injection Hrun as _ <-. done. }
  rewrite load_rows_cons in Hrun.
  destruct (load_row row d) as [t1 [f1|e]] eqn:Hrow; [|by destruct e].
  destruct (load_row_cases _ _ _ _ Hrow) as [Hsame|(q & cols & c & _ & -> & Hfit)].
  - destruct f1 as [d1|d1]; simpl in Hsame; subst d1.
    + destruct (load_rows rows d) as [t2 r2] eqn:Hrest.
      injection Hrun as _ ->. by eapply IH.
    + injection Hrun as _ <-. done.
  - destruct (load_rows rows _) as [t2 r2] eqn:Hrest.
    injection Hrun as _ ->. eapply IH; [|done]. by apply Hstep.
Qed.

(** X6. The cache the loader leaves has no key twice, however often the
    rows name a key: a key that comes again takes the place it has. *)
Theorem loaded_keys_unique (rows : list (list string)) (t : list event)
    (d : cache) :
  load_popularity_data rows = (t, Ok d) → NoDup d.*1.
Proof.
  intros (f & Hrun & ->)%load_popularity_data_inv.
  apply (load_rows_invariant (λ d, NoDup d.*1)) with rows [] t; [|constructor|done].
  intros d q c Hd _. by apply dict_set_NoDup.
Qed.

Lemma payload_bytes_set key value d :
  payload_bytes (dict_set key value d) ≤ payload_bytes d + len value.
Proof.
  unfold payload_bytes.
  induction d as [|[k v] d IH]; cbn [dict_set foldr snd]; [lia|].
  destruct (decide (k = key)); cbn [foldr snd]; [|lia].
  unfold len. lia.
Qed.

Lemma payload_bytes_csize d :
  (∀ items, 0 ≤ getsizeof (PDict items)) → (∀ s, 0 ≤ getsizeof (PStr s)) →
  (∀ b, len b ≤ getsizeof (PBytes b)) →
  payload_bytes d ≤ csize d.
Proof.
  intros Hdict Hstr Hbytes. unfold Http.csize.
  assert (Hk : 0 ≤ key_sizes getsizeof d).
  { unfold Http.key_sizes.
    induction d as [|[k v] d IH]; cbn [foldr fst]; [lia|].
    specialize (Hstr k). lia. }
  assert (Hp : payload_bytes d ≤ payload_sizes getsizeof d).
  { clear Hk. unfold payload_bytes, Http.payload_sizes.
    induction d as [|[k v] d IH]; cbn [foldr snd]; [lia|].
    specialize (Hbytes v). lia. }
  specialize (Hdict (entry_ids 1 d)). lia.
Qed.

(** X7. What the test before each insertion does secure: when
    [sys.getsizeof] is never negative and charges a bytes object at least
    its length, the payload bytes of the loaded cache, summed, are within
    the budget. *)
Theorem loaded_payload_within_budget (rows : list (list string))
    (t : list event) (d : cache) :
  (∀ items, 0 ≤ getsizeof (PDict items)) → (∀ s, 0 ≤ getsizeof (PStr s)) →
  (∀ b, len b ≤ getsizeof (PBytes b)) →
  load_popularity_data rows = (t, Ok d) →
  payload_bytes d ≤ CACHE_LIMIT.
Proof.
  intros Hdict Hstr Hbytes (f & Hrun & ->)%load_popularity_data_inv.
  apply (load_rows_invariant (λ d, payload_bytes d ≤ CACHE_LIMIT))
    with rows [] t; [|by compute|done].
  intros d q c _ Hfit.
  pose proof (payload_bytes_set q (compress c) d).
  pose proof (payload_bytes_csize d Hdict Hstr Hbytes). lia.
Qed.

(** X8. The loop never takes an entry out: a key that is in the cache at
    some turn is in the cache the loop ends with. *)
Theorem load_keeps_keys (rows : list (list string)) (d : cache)
    (t : list event) (f : flow) (k : string) :
  load_rows rows d = (t, Ok f) → is_Some (dict_get k d) →
  is_Some (dict_get k (cache_of f)).
Proof.
  intros Hrun Hk.
  apply (load_rows_invariant (λ d, is_Some (dict_get k d))) with rows d t;
    [|done|done].
  intros d' q c Hd' _. rewrite dict_get_set. by destruct (decide (q = k)).
Qed.

(** X9. Of a row only its first column counts: the columns behind it can
    be anything, or missing. *)
Theorem load_reads_first_column (rows : list (list string)) (d : cache) :
  load_rows rows d = load_rows (map (take 1) rows) d.
Proof.
  revert d. induction rows as [|row rows IH]; intros d; [done|].
  cbn [map]. rewrite !load_rows_cons.
  assert (Hrow : load_row (take 1 row) d = load_row row d).
  { rewrite !load_row_spec. by destruct row. }
  rewrite Hrow. destruct (load_row row d) as [t1 [[d1|d1]|e]]; try done.
  by rewrite IH.
Qed.

End LoaderMore.

(** * More on the request handler *)

Section HandlerMore.
Import Py Http.
Variable decompress : bytes → option bytes.
Variable build_request_URL : string → Z → string → string.
Variable origin : string → reply.
Variable origin_hostname : string.

#[local] Abbreviation do_GET :=
  (Http.do_GET decompress build_request_URL origin origin_hostname).
#[local] Abbreviation served :=
  (Http.served decompress build_request_URL origin origin_hostname).
#[local] Abbreviation do_GET_content :=
  (do_GET_content decompress build_request_URL origin origin_hostname).

Lemma split_nonempty sep s : split sep s ≠ [].
Proof.
  destruct s as [|c s]; simpl; [done|].
  destruct (Ascii.eqb c sep); [done|]. by destruct (split sep s).
Qed.

(** [split] yields one part more than there are separators. *)
Lemma split_length sep s : length (split sep s) = S (count_char sep s).
Proof.
  induction s as [|c s IH]; simpl; [done|].
  destruct (Ascii.eqb c sep); simpl; [by rewrite IH|].
  destruct (split sep s) as [|seg segs] eqn:Hs; [by destruct (split_nonempty sep s)|].
  by rewrite <- IH.
Qed.

Lemma split_no_sep sep s : count_char sep s = O → split sep s = [s].
Proof.
  induction s as [|c s IH]; simpl; [done|].
  destruct (Ascii.eqb c sep); [done|]. intros Hs. by rewrite (IH Hs).
Qed.

(** The last part is what stands behind the last separator. *)
Lemma split_behind_last sep p key :
  count_char sep key = O →
  ∃ segs, split sep (String.append p (String sep key)) = segs ++ [key]
          ∧ segs ≠ [].
Proof.
  intros Hkey. induction p as [|c p (segs & IH & Hne)]; simpl.
  - rewrite Ascii.eqb_refl, (split_no_sep sep key Hkey). by exists [EmptyString].
  - destruct (Ascii.eqb c sep).
    + exists (EmptyString :: segs). by rewrite IH.
    + rewrite IH. destruct segs as [|seg segs]; [done|].
      by exists (String c seg :: segs).
Qed.

(** X10. The content key of a request is the text behind the last slash
    of its path, whatever stands before that slash: the handler looks up
    and fetches that text, and nothing of the path before it. *)
Theorem content_key_is_last_part (d : cache) (p key : string) :
  count_char "/" key = O →
  String.append p (String "/" key) ≠ "/grading/beacon" →
  List.last (split "/" (String.append p (String "/" key))) EmptyString = key ∧
  ∃ t r, do_GET d (String.append p (String "/" key))
           = (bad_request (String.append p (String "/" key)) ++ t, r) ∧
         served d key t r.
Proof.
  intros Hkey Hpath.
  assert (Hlast : List.last (split "/" (String.append p (String "/" key)))
                    EmptyString = key).
  { destruct (split_behind_last "/" p key Hkey) as (segs & -> & _).
    apply List.last_last. }
  split; [done|].
  destruct (do_GET_content d _ Hpath) as (t & r & Hrun & Hs).
  rewrite Hlast in Hs. by exists t, r.
Qed.

(** X11. The 400 goes out exactly for the paths with two slashes or more,
    the beacon's path apart; so [/Dog] and [Dog] draw none, and [/a/Dog],
    [//] and [/Dog/] draw one. *)
Theorem bad_request_iff_two_slashes (d : cache) (path : string) :
  path ≠ "/grading/beacon" →
  ∃ t r,
    do_GET d path =
      ((if (2 <=? count_char "/" path)%nat
        then [SendError 400 "Bad request"] else []) ++ t, r) ∧
    served d (List.last (split "/" path) EmptyString) t r.
Proof.
  intros Hpath. destruct (do_GET_content d path Hpath) as (t & r & Hrun & Hs).
  exists t, r. split; [|done]. rewrite Hrun. unfold bad_request, len.
  rewrite split_length.
  destruct (2 <=? count_char "/" path)%nat eqn:Hc;
    destruct (Z.of_nat (S (count_char "/" path)) >? 2) eqn:Hz; try done.
  - apply Nat.leb_le in Hc. rewrite Z.gtb_ltb in Hz. apply Z.ltb_ge in Hz.
    exfalso. generalize dependent (count_char "/" path). intros n. lia.
  - apply Nat.leb_gt in Hc. rewrite Z.gtb_ltb in Hz. apply Z.ltb_lt in Hz.
    exfalso. generalize dependent (count_char "/" path). intros n. lia.
Qed.

(** X12. A request costs the origin one request at most, and none when it
    is the beacon's or its key is in the cache. *)
Theorem at_most_one_origin_request (d : cache) (path : string) :
  (origin_requests (do_GET d path).1 ≤ 1)%nat ∧
  (path = "/grading/beacon" ∨
     is_Some (dict_get (List.last (split "/" path) EmptyString) d) →
   origin_requests (do_GET d path).1 = O).
Proof.
  destruct (decide (path = "/grading/beacon")) as [->|Hpath].
  { assert (Hnone : origin_requests (do_GET d "/grading/beacon").1 = O)
      by reflexivity.
    rewrite Hnone. split; [lia|done]. }
  destruct (do_GET_content d path Hpath) as (t & r & -> & Hs).
  assert (Hbad : origin_requests (bad_request path) = O).
  { unfold bad_request. by destruct (len (split "/" path) >? 2). }
  unfold origin_requests in *. cbn [fst].
  rewrite List.filter_app, length_app, Hbad.
  unfold Http.served in Hs.
  destruct (dict_get _ d) as [cached|] eqn:Hget.
  - assert (Hnone : length (List.filter is_origin_get t) = O).
    { destruct (decompress cached); destruct Hs as [-> _]; done. }
    rewrite Hnone. split; [lia|done].
  - split; [|intros [?|[? ?]]; done]. simpl in Hs.
    destruct (origin _) as [st content|].
    + destruct (st =? 200); destruct Hs as [-> _]; cbn; lia.
    + destruct Hs as [-> _]; cbn; lia.
Qed.

(** X13. On a miss the origin's answer decides. Its 200 is relayed with
    the body as it came, not compressed; whatever other status it gives is
    answered with a 404 and its body is dropped; and when it cannot be
    reached the exception of the request leaves the handler, with nothing
    written for the request but the 400 a nested path drew. *)
Theorem miss_outcomes (d : cache) (path : string) :
  path ≠ "/grading/beacon" →
  dict_get (List.last (split "/" path) EmptyString) d = None →
  do_GET d path =
    let url := build_request_URL origin_hostname 8080
                 (List.last (split "/" path) EmptyString) in
    match origin url with
    | Response status_code content =>
        if status_code =? 200
        then (bad_request path ++ OriginGet url :: ok_response content, Ok tt)
        else (bad_request path ++ [OriginGet url; SendError 404 "Not Found"],
              Ok tt)
    | Unreachable =>
        (bad_request path ++ [OriginGet url], Raise RequestException)
    end.
Proof.
  intros Hpath Hmiss. destruct (do_GET_content d path Hpath) as (t & r & -> & Hs).
  unfold Http.served in Hs. rewrite Hmiss in Hs. simpl in *.
  destruct (origin _) as [st content|].
  - by destruct (st =? 200); destruct Hs as [-> ->].
  - by destruct Hs as [-> ->].
Qed.

End HandlerMore.

(** * More on preload and request together *)

Section PreloadMore.
Import Py Http.
Variable getsizeof : pyobj → Z.
Variable compress : bytes → bytes.
Variable decompress : bytes → option bytes.
Variable build_request_URL : string → Z → string → string.
Variable origin : string → reply.
Variable origin_hostname : string.

#[local] Abbreviation load_rows :=
  (Http.load_rows getsizeof compress build_request_URL origin origin_hostname).
#[local] Abbreviation load_popularity_data :=
  (Http.load_popularity_data getsizeof compress build_request_URL origin
     origin_hostname).
#[local] Abbreviation do_GET :=
  (Http.do_GET decompress build_request_URL origin origin_hostname).


End PreloadMore.

(** * More on the DNS responder *)

Section ResponderMore.
Import Py Dns.
Variable parse : bytes → option DNSRecord.
Variable pack : DNSRecord → bytes.
Variable NAME : string.

#[local] Abbreviation parse_dig_query := (Dns.parse_dig_query parse pack NAME).
#[local] Abbreviation serve := (Dns.serve parse pack NAME).

(** X15. A query that parses is answered if and only if it asks for type 1
    and its labels, joined by dots, are the configured name, letter for
    letter. *)
Theorem answered_iff_type_and_name (data : bytes) (addr : address)
    (dig_query : DNSRecord) :
  parse data = Some dig_query →
  (∃ b, parse_dig_query data addr = Ok (Some b)) ↔
  qtype (get_q dig_query) = 1 ∧
  String.concat "." (qname (get_q dig_query)) = NAME.
Proof.
  intros Hparse. unfold Dns.parse_dig_query. rewrite Hparse, drop_last_label.
  destruct (qtype (get_q dig_query) =? 1) eqn:Htype; simpl.
  - apply Z.eqb_eq in Htype.
    destruct (decide (String.concat "." (qname (get_q dig_query)) = NAME))
      as [Hname|Hname].
    + rewrite bool_decide_eq_true_2 by done. split; [done|]. by eexists.
    + rewrite bool_decide_eq_false_2 by done. split.
      * by intros [b [=]].
      * by intros [_ ?].
  - apply Z.eqb_neq in Htype. split.
    + by intros [b [=]].
    + by intros [? _].
Qed.

(** X16. What the loop sends is the answers to the datagrams of a leading
    stretch of the inbox, one for each, in order, each addressed to the
    sender of its query.  The loop waits for more when that stretch is the
    whole inbox; otherwise it has ended at the first datagram behind the
    stretch, which either made [parse_dig_query] raise or drew no answer
    (and then the exception is [TypeError]). *)
Theorem serve_answers_a_prefix (inbox : list (bytes * address)) :
  Forall2 (λ out inp, out.2 = inp.2 ∧
                      parse_dig_query inp.1 inp.2 = Ok (Some out.1))
    (serve inbox).1 (take (length (serve inbox).1) inbox) ∧
  match (serve inbox).2 with
  | Waiting => length (serve inbox).1 = length inbox
  | Crashed e =>
      ∃ data addr,
        inbox !! length (serve inbox).1 = Some (data, addr) ∧
        (parse_dig_query data addr = Raise e ∨
         parse_dig_query data addr = Ok None ∧ e = TypeError)
  end.
Proof.
  induction inbox as [|[data addr] inbox [IHsent IHst]]; [by split; constructor|].
  change (serve ((data, addr) :: inbox)) with
    (match parse_dig_query data addr with
     | Raise e => ([], Crashed e)
     | Ok dig_response =>
         match sendto dig_response addr with
         | Raise e => ([], Crashed e)
         | Ok datagram =>
             let '(sent, st) := serve inbox in (datagram :: sent, st)
         end
     end).
  destruct (parse_dig_query data addr) as [[b|]|e] eqn:Hq; simpl.
  - destruct (serve inbox) as [sent st]. simpl in *. split.
    + constructor; [by split|done].
    + destruct st as [|e]; [by f_equal|done].
  - split; [constructor|]. exists data, addr. split; [done|]. by right.
  - split; [constructor|]. exists data, addr. split; [done|]. by left.
Qed.

End ResponderMore.

(** * The further properties at work *)

Section MoreRuns.
Import Py Http Dns Concrete.

#[local] Abbreviation load_rows' origin :=
  (Http.load_rows cpython_getsizeof framed_compress build_request_URL origin
     "origin").
#[local] Abbreviation load' origin :=
  (Http.load_popularity_data cpython_getsizeof framed_compress
     build_request_URL origin "origin").
#[local] Abbreviation size' := (Http.cache_size cpython_getsizeof).
#[local] Abbreviation get' origin :=
  (Http.do_GET framed_decompress build_request_URL origin "origin").

Lemma dict_table_pos fuel : ∀ t n, 0 < t → 0 < dict_table fuel t n.
Proof.
  induction fuel as [|fuel IH]; intros t n Ht; simpl; [done|].
  destruct (n <=? 2 * t / 3); [done|]. apply IH. lia.
Qed.

Lemma dict_sizeof_nonneg n : 0 ≤ dict_sizeof n.
Proof.
  unfold dict_sizeof. destruct (n =? 0); [lia|].
  pose proof (dict_table_pos 60 8 n) as Ht.
  generalize dependent (dict_table 60 8 n). intros t Ht.
  specialize (Ht ltac:(lia)).
  assert (0 ≤ 2 * t / 3) by (apply Z.div_pos; lia).
  repeat destruct (_ <=? _); lia.
Qed.

Lemma cpython_sizes :
  (∀ items, 0 ≤ cpython_getsizeof (PDict items)) ∧
  (∀ s, 0 ≤ cpython_getsizeof (PStr s)) ∧
  (∀ b, len b ≤ cpython_getsizeof (PBytes b)).
Proof.
  split; [intros items; apply dict_sizeof_nonneg|].
  split; [intros s; cbn [cpython_getsizeof]; lia|].
  intros b. cbn [cpython_getsizeof]. lia.
Qed.

(** A cache that is full: one page of 20,000,000 bytes. *)
Lemma full_cache_size :
  size' [("Dog", framed_compress (blob 20000000))] = Some 20000319.
Proof.
  rewrite cache_size_closed_form, cpython_csize_one, len_framed, len_blob.
  reflexivity.
Qed.

Lemma full_cache_asks_nothing_witness :
  size' [("Dog", framed_compress (blob 20000000))] = Some 20000319 ∧
  CACHE_LIMIT ≤ 20000319 ∧
  load_rows' pets [["Cat"]; []; ["Bird"]]
    [("Dog", framed_compress (blob 20000000))]
  = ([], Ok (Continue [("Dog", framed_compress (blob 20000000))])).
Proof.
  split; [exact full_cache_size|]. split; [by compute|].
  apply (full_cache_asks_nothing cpython_getsizeof framed_compress
           build_request_URL pets "origin" [["Cat"]; []; ["Bird"]]
           [("Dog", framed_compress (blob 20000000))] 20000319).
  - exact full_cache_size.
  - by compute.
Defined.

Lemma blank_row_ends_load_witness :
  load_rows' pets [["Dog"]] []
    = ([OriginGet "http://origin:8080/Dog"], Ok (Continue pets_cache)) ∧
  size' pets_cache = Some 328 ∧
  load' pets ([["Dog"]] ++ [] :: [["Cat"]])
    = ([OriginGet "http://origin:8080/Dog"], Raise IndexError).
Proof.
  split; [vm_compute; reflexivity|]. split; [vm_compute; reflexivity|].
  apply (blank_row_ends_load cpython_getsizeof framed_compress
           build_request_URL pets "origin" [["Dog"]] [["Cat"]]
           [OriginGet "http://origin:8080/Dog"] pets_cache 328).
  - vm_compute. reflexivity.
  - vm_compute. reflexivity.
  - by compute.
Defined.

Lemma loaded_keys_unique_witness :
  load' pets [["Dog"]; ["Cat"]; ["Dog"]]
    = ([OriginGet "http://origin:8080/Dog"; OriginGet "http://origin:8080/Cat";
        OriginGet "http://origin:8080/Dog"], Ok pets_cache) ∧
  NoDup pets_cache.*1.
Proof.
  assert (Hrun : load' pets [["Dog"]; ["Cat"]; ["Dog"]]
            = ([OriginGet "http://origin:8080/Dog";
                OriginGet "http://origin:8080/Cat";
                OriginGet "http://origin:8080/Dog"], Ok pets_cache))
    by (vm_compute; reflexivity).
  split; [exact Hrun|].
  exact (loaded_keys_unique cpython_getsizeof framed_compress
           build_request_URL pets "origin" _ _ _ Hrun).
Defined.

Lemma loaded_payload_within_budget_witness :
  payload_bytes pets_cache ≤ CACHE_LIMIT.
Proof.
  apply (loaded_payload_within_budget cpython_getsizeof framed_compress
           build_request_URL pets "origin" [["Dog"]; ["Cat"]]
           [OriginGet "http://origin:8080/Dog"; OriginGet "http://origin:8080/Cat"]
           pets_cache).
  - exact (proj1 cpython_sizes).
  - exact (proj1 (proj2 cpython_sizes)).
  - exact (proj2 (proj2 cpython_sizes)).
  - vm_compute. reflexivity.
Defined.

Lemma load_keeps_keys_witness :
  is_Some (dict_get "Dog" pets_cache) ∧
  is_Some (dict_get "Dog"
             (cache_of (Continue pets_cache))).
Proof.
  assert (Hin : is_Some (dict_get "Dog" pets_cache)) by (by eexists).
  split; [exact Hin|].
  apply (load_keeps_keys cpython_getsizeof framed_compress build_request_URL
           pets "origin" [["Cat"]] pets_cache
           [OriginGet "http://origin:8080/Cat"] (Continue pets_cache) "Dog").
  - vm_compute. reflexivity.
  - exact Hin.
Defined.

Lemma content_key_is_last_part_witness :
  count_char "/" "Dog" = O ∧
  List.last (split "/" (String.append "/wiki" (String "/" "Dog"))) EmptyString
    = "Dog" ∧
  ∃ t r, get' pets pets_cache (String.append "/wiki" (String "/" "Dog"))
           = (bad_request (String.append "/wiki" (String "/" "Dog")) ++ t, r) ∧
         served framed_decompress build_request_URL pets "origin"
           pets_cache "Dog" t r.
Proof.
  split; [reflexivity|].
  apply (content_key_is_last_part framed_decompress build_request_URL pets
           "origin" pets_cache "/wiki" "Dog"); [reflexivity | discriminate].
Defined.

Lemma bad_request_iff_two_slashes_witness :
  ∃ t r,
    get' pets pets_cache "/Dog" =
      ((if (2 <=? count_char "/" "/Dog")%nat
        then [SendError 400 "Bad request"] else []) ++ t, r) ∧
    served framed_decompress build_request_URL pets "origin" pets_cache
      (List.last (split "/" "/Dog") EmptyString) t r.
Proof.
  apply (bad_request_iff_two_slashes framed_decompress build_request_URL pets
           "origin" pets_cache "/Dog"). discriminate.
Defined.

Lemma miss_outcomes_witness :
  dict_get (List.last (split "/" "/Cat") EmptyString) pets_cache = None ∧
  get' pets pets_cache "/Cat" =
    let url := build_request_URL "origin" 8080
                 (List.last (split "/" "/Cat") EmptyString) in
    match pets url with
    | Response status_code content =>
        if status_code =? 200
        then (bad_request "/Cat" ++ OriginGet url :: ok_response content, Ok tt)
        else (bad_request "/Cat" ++ [OriginGet url; SendError 404 "Not Found"],
              Ok tt)
    | Unreachable =>
        (bad_request "/Cat" ++ [OriginGet url], Raise RequestException)
    end.
Proof.
  split; [reflexivity|].
  apply (miss_outcomes framed_decompress build_request_URL pets "origin"
           pets_cache "/Cat"); [discriminate | reflexivity].
Defined.

(** The three outcomes of a miss, run: a 404 from the origin, a page, and
    an origin that cannot be reached. *)
Example miss_runs :
  get' pets pets_cache "/Cat"
    = ([OriginGet "http://origin:8080/Cat"; SendError 404 "Not Found"], Ok tt) ∧
  get' pets pets_cache "/"
    = (OriginGet "http://origin:8080/" :: ok_response (encode "index"), Ok tt) ∧
  get' pets pets_cache "/Bird"
    = ([OriginGet "http://origin:8080/Bird"], Raise RequestException).
Proof. repeat split; reflexivity. Qed.


Lemma answered_iff_type_and_name_witness :
  wire_parse (wire_pack (query_for ["example"; "com"] 1))
    = Some (query_for ["example"; "com"] 1) ∧
  ((∃ b, Dns.parse_dig_query wire_parse wire_pack "example.com"
           (wire_pack (query_for ["example"; "com"] 1)) client = Ok (Some b)) ↔
   qtype (get_q (query_for ["example"; "com"] 1)) = 1 ∧
   String.concat "." (qname (get_q (query_for ["example"; "com"] 1)))
     = "example.com").
Proof.
  assert (Hparse : wire_parse (wire_pack (query_for ["example"; "com"] 1))
                   = Some (query_for ["example"; "com"] 1))
    by (vm_compute; reflexivity).
  split; [exact Hparse|].
  exact (answered_iff_type_and_name wire_parse wire_pack "example.com"
           (wire_pack (query_for ["example"; "com"] 1)) client
           (query_for ["example"; "com"] 1) Hparse).
Defined.

(** A name that differs in case only is another name to the responder. *)
Example case_matters :
  Dns.parse_dig_query wire_parse wire_pack "example.com"
    (wire_pack (query_for ["Example"; "com"] 1)) client = Ok None.
Proof. vm_compute. reflexivity. Qed.

End MoreRuns.
